(** * The BFGS Hessian update of Tutorials/13_Geometry_Optimization/13c_Hessians-updating.ipynb

    The last code cell of the notebook forms the displacement vectors [dq] and
    [dg] and computes the BFGS update of the Hessian [H] into a new array
    [H_new], with two pairs of nested loops over [range(Nintco)].

    The arrays are numpy [float64] arrays: their entries are IEEE-754 binary64
    numbers, modelled by Rocq's primitive floats, whose operations are the
    binary64 ones (round to nearest even).  Division never raises on numpy
    scalars: a zero divisor gives an infinity or a NaN (and a
    [RuntimeWarning], which stops nothing).  What does raise is indexing out
    of bounds ([IndexError]) and [np.dot] or broadcasting on shapes that do
    not fit ([ValueError]).  The cell is embedded in a state and exception
    monad over the arrays the cell names. *)

From Stdlib Require Import ZArith Lia List Bool Floats.
From stdpp Require Import base list.

Local Open Scope nat_scope.

(** ** numpy arrays and the operations the cell uses *)

Module NumPy.

Inductive exn := ValueError | IndexError.

Inductive result (A : Type) :=
| Ok (a : A)
| Raise (e : exn).
Arguments Ok {A} a.
Arguments Raise {A} e.

(** A one-dimensional [float64] array. *)
Abbreviation vec := (list float).

(** A two-dimensional array of shape [(nrows, ncols)], as its list of rows.
    The number of columns is kept apart, since numpy has arrays of shape
    [(0, c)]. *)
Record ndarray2 := Arr2 { ncols : nat; rowsof : list vec }.

Definition nrows (M : ndarray2) : nat := length (rowsof M).

(** numpy arrays are rectangular: every row has [ncols] entries. *)
Definition wf2 (M : ndarray2) : bool :=
  forallb (fun r => Nat.eqb (length r) (ncols M)) (rowsof M).

(** [np.zeros(n, float)] and [np.zeros((r, c), float)]. *)
Definition zeros (n : nat) : vec := replicate n 0%float.
Definition zeros2 (r c : nat) : ndarray2 := Arr2 c (replicate r (zeros c)).

(** [v[i]] for a non-negative [i]. *)
Definition getitem (v : vec) (i : nat) : result float :=
  match v !! i with
  | Some x => Ok x
  | None => Raise IndexError
  end.

(** [M[i, j]] for non-negative [i] and [j]. *)
Definition getitem2 (M : ndarray2) (i j : nat) : result float :=
  if Nat.ltb j (ncols M) then
    match rowsof M !! i with
    | Some r => getitem r j
    | None => Raise IndexError
    end
  else Raise IndexError.

(** [M[i, j] = x], in place. *)
Definition setitem2 (M : ndarray2) (i j : nat) (x : float) : result ndarray2 :=
  if Nat.ltb j (ncols M) then
    match rowsof M !! i with
    | Some r => Ok (Arr2 (ncols M) (<[i := <[j := x]> r]> (rowsof M)))
    | None => Raise IndexError
    end
  else Raise IndexError.

(** The sum of the products of the paired entries, accumulated from [0.0]
    from the first entry on.  (numpy leaves the order of the additions to the
    BLAS it is linked with; no statement below depends on it, and the arrays
    the update is evaluated on have sums that are exact in any order.) *)
Definition sumprod (a b : vec) : float :=
  fold_left (fun acc p => (acc + fst p * snd p)%float) (combine a b) 0%float.

(** [np.dot(a, b)] on two one-dimensional arrays. *)
Definition dot (a b : vec) : result float :=
  if Nat.eqb (length a) (length b) then Ok (sumprod a b) else Raise ValueError.

(** [np.dot(M, v)] on a two-dimensional and a one-dimensional array. *)
Definition dot21 (M : ndarray2) (v : vec) : result vec :=
  if Nat.eqb (ncols M) (length v)
  then Ok (map (fun r => sumprod r v) (rowsof M))
  else Raise ValueError.

(** [a - b] on one-dimensional arrays; a length-one operand is broadcast. *)
Definition zipsub (a b : vec) : vec :=
  map (fun p => (fst p - snd p)%float) (combine a b).

Definition np_sub (a b : vec) : result vec :=
  if Nat.eqb (length a) (length b) then Ok (zipsub a b)
  else match a, b with
       | [x], _ => Ok (map (fun y => (x - y)%float) b)
       | _, [y] => Ok (map (fun x => (x - y)%float) a)
       | _, _ => Raise ValueError
       end.

(** [-a]. *)
Definition np_neg (a : vec) : vec := map PrimFloat.opp a.

(** [dst[:] = src]: the new contents of [dst]; a length-one [src] is
    broadcast. *)
Definition assign_all (dst src : vec) : result vec :=
  if Nat.eqb (length src) (length dst) then Ok src
  else match src with
       | [x] => Ok (replicate (length dst) x)
       | _ => Raise ValueError
       end.

End NumPy.
Import NumPy.

(** ** The store of the cell, and its monad *)

(** The arrays and the integer the cell names.  [H] and [dq] come from the
    cells before ([H = np.zeros(...)], [dq = np.dot(Hinv, f_q1)]), [H_new] and
    [dg] are allocated by the cell itself with [np.zeros]: the four names are
    bound to four distinct array objects, one field each.  [divisors] is not
    Python state: it records, in order, the divisor of every division the
    cell has executed. *)
Record store := Store {
  Nintco : nat;
  H : ndarray2;
  dq : vec;
  dg : vec;
  H_new : ndarray2;
  q_1 : vec;
  q_2 : vec;
  f_q1 : vec;
  f_q2 : vec;
  divisors : list float
}.

Definition set_dq (v : vec) (s : store) : store :=
  Store (Nintco s) (H s) v (dg s) (H_new s) (q_1 s) (q_2 s) (f_q1 s) (f_q2 s) (divisors s).
Definition set_dg (v : vec) (s : store) : store :=
  Store (Nintco s) (H s) (dq s) v (H_new s) (q_1 s) (q_2 s) (f_q1 s) (f_q2 s) (divisors s).
Definition set_H_new (M : ndarray2) (s : store) : store :=
  Store (Nintco s) (H s) (dq s) (dg s) M (q_1 s) (q_2 s) (f_q1 s) (f_q2 s) (divisors s).
Definition log_divisor (d : float) (s : store) : store :=
  Store (Nintco s) (H s) (dq s) (dg s) (H_new s) (q_1 s) (q_2 s) (f_q1 s) (f_q2 s)
        (divisors s ++ [d]).

(** A statement runs from a store to the store it leaves and either a value
    or the exception that stopped it. *)
Definition M (A : Type) : Type := store -> store * result A.

Definition ret {A} (a : A) : M A := fun s => (s, Ok a).

Definition bind {A B} (m : M A) (f : A -> M B) : M B :=
  fun s => match m s with
           | (s', Ok a) => f a s'
           | (s', Raise e) => (s', Raise e)
           end.

#[global] Instance M_ret : MRet M := @ret.
#[global] Instance M_bind : MBind M := fun A B f m => bind m f.

(** Evaluate an expression over the store; it may raise. *)
Definition eval {A} (e : store -> result A) : M A := fun s => (s, e s).

(** Rebind or overwrite what the store holds. *)
Definition modify (f : store -> store) : M unit := fun s => (f s, Ok tt).

(** [x / y] on float64 scalars. *)
Definition fdiv (x y : float) : M float :=
  fun s => (log_divisor y s, Ok (x / y)%float).

(** [for i in l: body(i)]. *)
Fixpoint for_in (l : list nat) (body : nat -> M unit) : M unit :=
  match l with
  | [] => ret tt
  | i :: l' => body i ;; for_in l' body
  end.

(** [for i in range(n): body(i)].  ([Nintco] is an [int] the cell never
    rebinds: [bfgs_loops] reads it once for its four [range(Nintco)].) *)
Definition for_range (n : nat) (body : nat -> M unit) : M unit :=
  for_in (seq 0 n) body.

(** ** The cell *)

(** [H_new = np.zeros( (Nintco,Nintco) , float)] *)
Definition alloc_H_new : M unit :=
  modify (fun s => set_H_new (zeros2 (Nintco s) (Nintco s)) s).

(** [[
dg = np.zeros(Nintco, float)
dq[:] = q_2 - q_1    # Change in internal values.
dg[:] = f_q1 - f_q2  # Change in gradient values (not forces).
]] *)
Definition displacements : M unit :=
  modify (fun s => set_dg (zeros (Nintco s)) s) ;;
  d ← eval (fun s => np_sub (q_2 s) (q_1 s));
  v ← eval (fun s => assign_all (dq s) d);
  modify (set_dq v) ;;
  d ← eval (fun s => np_sub (f_q1 s) (f_q2 s));
  v ← eval (fun s => assign_all (dg s) d);
  modify (set_dg v).

(** [H_new[i,j] = H[i,j] + dg[i] * dg[j] / gq] *)
Definition add_T1 (gq : float) (i j : nat) : M unit :=
  h ← eval (fun s => getitem2 (H s) i j);
  a ← eval (fun s => getitem (dg s) i);
  b ← eval (fun s => getitem (dg s) j);
  t ← fdiv (a * b)%float gq;
  M' ← eval (fun s => setitem2 (H_new s) i j (h + t)%float);
  modify (set_H_new M').

(** [H_new[i,j] -=  Hdq[i] * Hdq[j] / dqHdq] *)
Definition sub_T2 (Hdq : vec) (dqHdq : float) (i j : nat) : M unit :=
  h ← eval (fun s => getitem2 (H_new s) i j);
  a ← eval (fun _ => getitem Hdq i);
  b ← eval (fun _ => getitem Hdq j);
  t ← fdiv (a * b)%float dqHdq;
  M' ← eval (fun s => setitem2 (H_new s) i j (h - t)%float);
  modify (set_H_new M').

(** [[
gq = np.dot(dq, dg)  # A useful intermediate.

for i in range(Nintco):
    for j in range(Nintco):
        H_new[i,j] = H[i,j] + dg[i] * dg[j] / gq

Hdq = np.dot(H, dq)
dqHdq = np.dot(dq, Hdq)

for i in range(Nintco):
    for j in range(Nintco):
        H_new[i,j] -=  Hdq[i] * Hdq[j] / dqHdq
]] *)
Definition bfgs_loops : M unit :=
  gq ← eval (fun s => dot (dq s) (dg s));
  n ← eval (fun s => Ok (Nintco s));
  for_range n (fun i => for_range n (fun j => add_T1 gq i j)) ;;
  Hdq ← eval (fun s => dot21 (H s) (dq s));
  dqHdq ← eval (fun s => dot (dq s) Hdq);
  for_range n (fun i => for_range n (fun j => sub_T2 Hdq dqHdq i j)).

(** The update on given [H], [dq] and [dg]: the allocation of [H_new] and the
    statements from [gq = ...] on. *)
Definition update_bfgs : M unit := alloc_H_new ;; bfgs_loops.

(** The whole cell, in the order of its statements.  (The allocation of
    [H_new] comes first in the cell; it touches nothing [displacements] reads
    or writes.) *)
Definition cell : M unit := alloc_H_new ;; displacements ;; bfgs_loops.

(** ** The vocabulary of the statements *)

(** What a statement of the update reads and never writes. *)
Definition inputs (s : store) :=
  (Nintco s, H s, dq s, dg s, q_1 s, q_2 s, f_q1 s, f_q2 s).

(** [keeps m]: however [m] ends, it has written nothing but [H_new]. *)
Definition keeps {A} (m : M A) : Prop :=
  forall s, inputs (fst (m s)) = inputs s.

(** [triple P m Q]: from a store in [P], [m] ends without an exception, in a
    store and with a value in [Q]. *)
Definition triple {A} (P : store -> Prop) (m : M A) (Q : A -> store -> Prop) : Prop :=
  forall s, P s -> exists a s', m s = (s', Ok a) /\ Q a s'.

(** The store when two nested loops over [range(n)], started in [s0], are
    about to run their body at [(i, j)], when the body divides by [d] and
    replaces the entry [old] of [H_new] at [(a, b)] by [g a b old]: the
    entries before [(i, j)], row by row, are rewritten, the others are as in
    [s0]. *)
Definition fill_inv (n : nat) (g : nat -> nat -> float -> float) (d : float)
    (s0 : store) (i j : nat) (s : store) : Prop :=
  inputs s = inputs s0 /\
  ncols (H_new s) = n /\ nrows (H_new s) = n /\ wf2 (H_new s) = true /\
  divisors s = divisors s0 ++ replicate (i * n + j) d /\
  forall a b old, a < n -> b < n -> getitem2 (H_new s0) a b = Ok old ->
    getitem2 (H_new s) a b =
    Ok (if decide (a < i \/ (a = i /\ b < j)) then g a b old else old).

(** The values the cell binds to [gq], [Hdq] and [dqHdq] when the shapes fit. *)
Definition gq (s : store) : float := sumprod (dq s) (dg s).
Definition Hdq (s : store) : vec := map (fun r => sumprod r (dq s)) (rowsof (H s)).
Definition dqHdq (s : store) : float := sumprod (dq s) (Hdq s).

(** [H] is [Nintco] by [Nintco], [dq] and [dg] have [Nintco] entries. *)
Definition well_shaped (s : store) : bool :=
  wf2 (H s) && Nat.eqb (nrows (H s)) (Nintco s) && Nat.eqb (ncols (H s)) (Nintco s)
  && Nat.eqb (length (dq s)) (Nintco s) && Nat.eqb (length (dg s)) (Nintco s).

(** Entries read with a default, for indices known to be in range. *)
Definition at1 (v : vec) (i : nat) : float := default 0%float (v !! i).
Definition at2 (M : ndarray2) (i j : nat) : float :=
  at1 (default [] (rowsof M !! i)) j.

(** The entry the first pair of loops stores at [(i, j)], and the entry the
    second pair makes of [old]. *)
Definition with_T1 (s : store) (i j : nat) : float :=
  (at2 (H s) i j + at1 (dg s) i * at1 (dg s) j / gq s)%float.
Definition less_T2 (s : store) (i j : nat) (old : float) : float :=
  (old - at1 (Hdq s) i * at1 (Hdq s) j / dqHdq s)%float.

(** Modelled from the spec: the floor [min_denominator] of the contract
    ([1e-8] by default, the binary64 number nearest to it); the cell has no
    such constant. *)
Definition min_denominator : float := 0x1.5798ee2308c3ap-27%float.

(** A store with the arrays of the update and nothing else. *)
Definition inputs_only (n : nat) (M : ndarray2) (q g : vec) : store :=
  Store n M q g (zeros2 0 0) [] [] [] [] [].

(** Three internal coordinates, a diagonal guess for [H], and a step so small
    that both denominators are far below the floor. *)
Definition tiny_step : store :=
  inputs_only 3 (Arr2 3 [[0.75; 0; 0]; [0; 0.75; 0]; [0; 0; 0.125]]%float)
              [0x1p-30; 0; 0]%float [0x1p-30; 0; 0]%float.

(** The same [H] with two identical points: [dq] and [dg] are zero. *)
Definition no_step : store :=
  inputs_only 3 (Arr2 3 [[0.75; 0; 0]; [0; 0.75; 0]; [0; 0; 0.125]]%float)
              [0; 0; 0]%float [0; 0; 0]%float.

(** The cell has no check of its own on the shapes: what stops it is numpy.
    [raises_before_computing s]: the update stops on an exception in the
    store it started from, [H_new] allocated and nothing else done. *)
Definition raises_before_computing (s : store) : Prop :=
  exists e, update_bfgs s = (set_H_new (zeros2 (Nintco s) (Nintco s)) s, Raise e).

(** A one by one [H] with [dq] and [dg] of length two. *)
Definition too_long : store :=
  inputs_only 1 (Arr2 1 [[1]]%float) [1; 1]%float [1; 1]%float.

(** The store with no internal coordinate. *)
Definition no_coordinates : store := inputs_only 0 (zeros2 0 0) [] [].

(** What the loops read. *)
Definition view (s : store) := (Nintco s, H s, dq s, dg s, H_new s).

(** [same_run m]: from two stores with the same [view], [m] ends the same
    way, with the same value or exception, in stores with the same [view]. *)
Definition same_run {A} (m : M A) : Prop :=
  forall s1 s2, view s1 = view s2 ->
    snd (m s1) = snd (m s2) /\ view (fst (m s1)) = view (fst (m s2)).

(** The store [tiny_step] with other forces, another old [H_new] and a
    division already recorded. *)
Definition tiny_step_later : store :=
  Store 3 (H tiny_step) (dq tiny_step) (dg tiny_step) (Arr2 1 [[7]]%float)
        [1]%float [2]%float [3]%float [4]%float [5]%float.

(** The displacement of the gradient as the contract words it: the gradient
    at the current point minus the gradient at the previous point. *)
Definition gradient_displacement (g1 g2 : vec) : result vec := np_sub g2 g1.

(** The statements of [displacements], with [dg] formed from the gradients
    [-f_q1] and [-f_q2] in the contract's words. *)
Definition displacements_of_gradients : M unit :=
  modify (fun s => set_dg (zeros (Nintco s)) s) ;;
  d ← eval (fun s => np_sub (q_2 s) (q_1 s));
  v ← eval (fun s => assign_all (dq s) d);
  modify (set_dq v) ;;
  d ← eval (fun s => gradient_displacement (np_neg (f_q1 s)) (np_neg (f_q2 s)));
  v ← eval (fun s => assign_all (dg s) d);
  modify (set_dg v).

(** Three internal coordinates as for water (two stretches and a bend), with
    a diagonal guess for [H]. *)
Definition water_like : store :=
  inputs_only 3 (Arr2 3 [[0.75; 0; 0]; [0; 0.75; 0]; [0; 0; 0.125]]%float)
              [0.5; 0.5; 0.25]%float [0.5; 0.25; 0.125]%float.

(** The store before the cell runs, for the same three coordinates: [dq]
    still holds the Newton-Raphson step, [dg] and [H_new] are not bound yet
    (any value does), and [q_1], [q_2], [f_q1], [f_q2] are the values and the
    forces at the two points. *)
Definition two_points : store :=
  Store 3 (H water_like) [0.625; 0.5; 0.25]%float [] (zeros2 0 0)
        [1.75; 1.75; 1.75]%float [2.25; 2.25; 2]%float
        [0.25; 0.125; 0.0625]%float [-0.25; -0.125; -0.0625]%float [].

(** ** More of the update: how it ends, and what it leaves *)

(** The shapes on which the update ends without an exception: [H] square,
    [dq] and [dg] with as many entries as [H] has rows, and [Nintco] at most
    that number. *)
Definition fits (s : store) : bool :=
  wf2 (H s) && Nat.eqb (nrows (H s)) (ncols (H s))
  && Nat.eqb (length (dq s)) (nrows (H s)) && Nat.eqb (length (dg s)) (nrows (H s))
  && Nat.leb (Nintco s) (nrows (H s)).

(** How the update ends, read off the shapes alone, in the order in which the
    statements meet them: [np.dot(dq, dg)], the indexing in the first pair of
    loops, [np.dot(H, dq)], [np.dot(dq, Hdq)]. *)
Definition update_outcome (s : store) : result unit :=
  if negb (Nat.eqb (length (dq s)) (length (dg s))) then Raise ValueError
  else if negb (Nat.leb (Nintco s) (nrows (H s)) && Nat.leb (Nintco s) (ncols (H s))
                && Nat.leb (Nintco s) (length (dg s))) then Raise IndexError
  else if negb (Nat.eqb (ncols (H s)) (length (dq s))) then Raise ValueError
  else if negb (Nat.eqb (length (dq s)) (nrows (H s))) then Raise ValueError
  else Ok tt.

(** [H_new] is an [n] by [n] array. *)
Definition H_new_shaped (n : nat) (s : store) : Prop :=
  ncols (H_new s) = n /\ nrows (H_new s) = n /\ wf2 (H_new s) = true.

(** [only_raises e0 m]: when [m] stops on an exception, it is [e0]. *)
Definition only_raises {A} (e0 : exn) (m : M A) : Prop :=
  forall s s' e, m s = (s', Raise e) -> e = e0.

(** [keeps_shape n m]: however [m] ends, it leaves [H_new] an [n] by [n]
    array when it found it so. *)
Definition keeps_shape {A} (n : nat) (m : M A) : Prop :=
  forall s, H_new_shaped n s -> H_new_shaped n (fst (m s)).

(** A two by two [H] with a loop bound [Nintco] of one; and a two by three
    [H] with vectors of length two. *)
Definition leading_block : store :=
  inputs_only 1 (Arr2 2 [[1; 0.5]; [0.5; 2]]%float) [1; 2]%float [2; 1]%float.
Definition wide_H : store :=
  inputs_only 2 (Arr2 3 [[1; 0; 0]; [0; 1; 0]]%float) [1; 1]%float [1; 1]%float.

(** ** More of the cell: the displacement statements *)

(** The length of [a - b] for arrays of [a] and [b] entries, when numpy can
    broadcast them. *)
Definition sub_length (a b : nat) : option nat :=
  if Nat.eqb a b then Some a
  else if Nat.eqb a 1 then Some b
  else if Nat.eqb b 1 then Some a
  else None.

(** [x[:] = a - b] goes through for an [x] of [n] entries and arrays of [a]
    and [b] entries. *)
Definition assignable (n a b : nat) : bool :=
  match sub_length a b with
  | Some k => Nat.eqb k n || Nat.eqb k 1
  | None => false
  end.

(** How the displacement statements end, read off the shapes alone. *)
Definition displacements_outcome (s : store) : result unit :=
  if assignable (length (dq s)) (length (q_2 s)) (length (q_1 s))
     && assignable (Nintco s) (length (f_q1 s)) (length (f_q2 s))
  then Ok tt else Raise ValueError.

(** How the whole cell ends, read off the shapes alone: when the
    displacements are formed, [dg] has [Nintco] entries and [dq] the length
    it had. *)
Definition cell_outcome (s : store) : result unit :=
  match displacements_outcome s with
  | Ok _ => update_outcome (set_dg (zeros (Nintco s)) s)
  | Raise e => Raise e
  end.

(** What the statements of [displacements] do, one case for each place where
    they can stop. *)
Definition displacements_cases (s : store) : store * result unit :=
  let s0 := set_dg (zeros (Nintco s)) s in
  match np_sub (q_2 s) (q_1 s) with
  | Raise e => (s0, Raise e)
  | Ok d =>
    match assign_all (dq s) d with
    | Raise e => (s0, Raise e)
    | Ok v =>
      match np_sub (f_q1 s) (f_q2 s) with
      | Raise e => (set_dq v s0, Raise e)
      | Ok d' =>
        match assign_all (zeros (Nintco s)) d' with
        | Raise e => (set_dq v s0, Raise e)
        | Ok w => (set_dg w (set_dq v s0), Ok tt)
        end
      end
    end
  end.

(** Two points whose forces have lengths that do not fit; and a step with a
    single value and a single force for three coordinates. *)
Definition forces_unfit : store :=
  Store 3 (H water_like) [0.625; 0.5; 0.25]%float [] (zeros2 0 0)
        [1.75; 1.75; 1.75]%float [2.25; 2.25; 2]%float
        [0.25; 0.125]%float [-0.25; -0.125; -0.0625]%float [].
Definition single_value : store :=
  Store 3 (H water_like) [0.625; 0.5; 0.25]%float [] (zeros2 0 0)
        [1.75]%float [2.25]%float [0.25]%float [-0.25]%float [].

(** ** The cells before the update: the guess Hessian, the flat gradient *)

Definition set_Nintco (n : nat) (s : store) : store :=
  Store n (H s) (dq s) (dg s) (H_new s) (q_1 s) (q_2 s) (f_q1 s) (f_q2 s) (divisors s).
Definition set_H (M' : ndarray2) (s : store) : store :=
  Store (Nintco s) M' (dq s) (dg s) (H_new s) (q_1 s) (q_2 s) (f_q1 s) (f_q2 s)
        (divisors s).

(** [for i, x in enumerate(l): body(i, x)], counting from [k]. *)
Fixpoint for_enumerate_from {A} (k : nat) (l : list A) (body : nat -> A -> M unit)
    : M unit :=
  match l with
  | [] => mret tt
  | x :: l' => body k x ;; for_enumerate_from (S k) l' body
  end.

Definition for_enumerate {A} (l : list A) (body : nat -> A -> M unit) : M unit :=
  for_enumerate_from 0 l body.

(** [H[i,i] = intco.diagonalHessianGuess(xyz, Z, guessType="SCHLEGEL")] *)
Definition guess_entry {intco : Type} (diagonalHessianGuess : intco -> float)
    (i : nat) (c : intco) : M unit :=
  M' ← eval (fun s => setitem2 (H s) i i (diagonalHessianGuess c));
  modify (set_H M').

(** [[
Nintco = len(intcos)
H = np.zeros((Nintco,Nintco), float)
for i,intco in enumerate(intcos):
    H[i,i] = intco.diagonalHessianGuess(xyz, Z, guessType="SCHLEGEL")
]]
    The coordinates [stre.STRE], [bend.BEND] and their method
    [diagonalHessianGuess] are of the package [opt_helper], which the notebook
    imports: the method is a parameter here, the number it returns for a
    coordinate at the geometry [xyz]. *)
Definition guess_H {intco : Type} (diagonalHessianGuess : intco -> float)
    (intcos : list intco) : M unit :=
  modify (set_Nintco (length intcos)) ;;
  modify (fun s => set_H (zeros2 (Nintco s) (Nintco s)) s) ;;
  for_enumerate intcos (guess_entry diagonalHessianGuess).

(** [np.reshape(a, (k))] of a two-dimensional array [a]: its entries, row
    after row. *)
Definition reshape1 (a : ndarray2) (k : nat) : result vec :=
  if Nat.eqb (nrows a * ncols a) k then Ok (concat (rowsof a)) else Raise ValueError.

(** [np.reshape( np.array( psi4.gradient('scf')), (3*Natom))], for the array
    [gradient] that [psi4] returns. *)
Definition flat_gradient (Natom : nat) (gradient : ndarray2) : result vec :=
  reshape1 gradient (3 * Natom).

(** ** Facts on arrays *)

Section Arrays.

Implicit Types (M : ndarray2) (v : vec) (i j : nat) (x : float).

Lemma wf2_row M i r :
  wf2 M = true -> rowsof M !! i = Some r -> length r = ncols M.
Proof.
  unfold wf2. intros Hwf Hr.
  rewrite forallb_forall in Hwf.
  apply Nat.eqb_eq, Hwf.
  apply list_elem_of_In, list_elem_of_lookup. eauto.
Qed.

Lemma getitem_Ok v i x : getitem v i = Ok x <-> v !! i = Some x.
Proof.
  unfold getitem. destruct (v !! i); split; intros E; congruence.
Qed.

Lemma getitem_lt v i : i < length v -> exists x, getitem v i = Ok x.
Proof.
  intros Hi. destruct (lookup_lt_is_Some_2 v i Hi) as [x Hx].
  exists x. now apply getitem_Ok.
Qed.

Lemma getitem2_lt M i j :
  wf2 M = true -> i < nrows M -> j < ncols M ->
  exists x, getitem2 M i j = Ok x.
Proof.
  intros Hwf Hi Hj. unfold getitem2.
  apply Nat.ltb_lt in Hj as Hj'. rewrite Hj'.
  destruct (lookup_lt_is_Some_2 (rowsof M) i Hi) as [r Hr]. rewrite Hr.
  apply getitem_lt. now rewrite (wf2_row M i r).
Qed.

Lemma setitem2_lt M i j x :
  i < nrows M -> j < ncols M -> exists M', setitem2 M i j x = Ok M'.
Proof.
  intros Hi Hj. unfold setitem2.
  apply Nat.ltb_lt in Hj. rewrite Hj.
  destruct (lookup_lt_is_Some_2 (rowsof M) i Hi) as [r Hr]. rewrite Hr.
  eauto.
Qed.

Lemma setitem2_shape M M' i j x :
  setitem2 M i j x = Ok M' ->
  ncols M' = ncols M /\ nrows M' = nrows M /\ (wf2 M = true -> wf2 M' = true).
Proof.
  unfold setitem2.
  destruct (Nat.ltb j (ncols M)); [|discriminate].
  destruct (rowsof M !! i) as [r|] eqn:Hr; [|discriminate].
  intros E. injection E as <-. unfold nrows, wf2. simpl.
  split; [reflexivity|]. split; [apply length_insert|].
  intros Hwf. apply forallb_forall. intros r' Hin.
  apply list_elem_of_In, list_elem_of_lookup in Hin as [k Hk].
  destruct (decide (i = k)) as [->|Hne].
  - rewrite list_lookup_insert_eq in Hk by (eapply lookup_lt_Some; eauto).
    injection Hk as <-. rewrite length_insert.
    apply Nat.eqb_eq. eapply wf2_row; eauto.
  - rewrite list_lookup_insert_ne in Hk by assumption.
    apply Nat.eqb_eq. eapply wf2_row; eauto.
Qed.

Lemma getitem2_setitem2_eq M M' i j x :
  wf2 M = true -> setitem2 M i j x = Ok M' -> getitem2 M' i j = Ok x.
Proof.
  unfold setitem2, getitem2. intros Hwf.
  destruct (Nat.ltb j (ncols M)) eqn:Hj; [|discriminate].
  destruct (rowsof M !! i) as [r|] eqn:Hr; [|discriminate].
  intros E. injection E as <-. simpl. rewrite Hj.
  rewrite list_lookup_insert_eq by (eapply lookup_lt_Some; eauto).
  apply getitem_Ok, list_lookup_insert_eq.
  rewrite (wf2_row M i r) by assumption. now apply Nat.ltb_lt.
Qed.

Lemma getitem2_setitem2_ne M M' i j i' j' x :
  setitem2 M i j x = Ok M' -> (i', j') <> (i, j) ->
  getitem2 M' i' j' = getitem2 M i' j'.
Proof.
  unfold setitem2, getitem2.
  destruct (Nat.ltb j (ncols M)) eqn:Hj; [|discriminate].
  destruct (rowsof M !! i) as [r|] eqn:Hr; [|discriminate].
  intros E Hne. injection E as <-. simpl.
  destruct (Nat.ltb j' (ncols M)); [|reflexivity].
  destruct (decide (i = i')) as [<-|Hi].
  - rewrite list_lookup_insert_eq by (eapply lookup_lt_Some; eauto).
    rewrite Hr. unfold getitem.
    rewrite list_lookup_insert_ne by congruence. reflexivity.
  - rewrite list_lookup_insert_ne by assumption. reflexivity.
Qed.

Lemma zeros2_shape r c :
  ncols (zeros2 r c) = c /\ nrows (zeros2 r c) = r /\ wf2 (zeros2 r c) = true.
Proof.
  unfold zeros2, nrows, wf2, zeros. simpl.
  split; [reflexivity|]. split; [apply length_replicate|].
  apply forallb_forall. intros x Hin.
  apply list_elem_of_In, elem_of_replicate in Hin as [-> _].
  rewrite length_replicate. apply Nat.eqb_refl.
Qed.

Lemma dot_Ok a b : length a = length b -> dot a b = Ok (sumprod a b).
Proof. intros E. unfold dot. rewrite E, Nat.eqb_refl. reflexivity. Qed.

Lemma dot_Ok_inv a b x : dot a b = Ok x -> length a = length b /\ x = sumprod a b.
Proof.
  unfold dot. destruct (Nat.eqb (length a) (length b)) eqn:E; [|discriminate].
  intros E'. injection E' as <-. split; [now apply Nat.eqb_eq|reflexivity].
Qed.

Lemma dot21_Ok_inv M v w :
  dot21 M v = Ok w ->
  ncols M = length v /\ w = map (fun r => sumprod r v) (rowsof M).
Proof.
  unfold dot21. destruct (Nat.eqb (ncols M) (length v)) eqn:E; [|discriminate].
  intros E'. injection E' as <-. split; [now apply Nat.eqb_eq|reflexivity].
Qed.

End Arrays.

(** ** Facts on binary64 arithmetic

    Proved on the specification of the operations ([SpecFloat]), which the
    primitive operations follow. *)

Section Binary64.

Implicit Types x y : float.

Lemma float_mul_comm x y : (x * y)%float = (y * x)%float.
Proof.
  apply Prim2SF_inj. rewrite !mul_spec. unfold SF64mul, SFmul.
  destruct (Prim2SF x) as [sx|sx| |sx mx ex], (Prim2SF y) as [sy|sy| |sy my ey];
    try reflexivity; rewrite (xorb_comm sx sy); try reflexivity.
  now rewrite (Pos.mul_comm mx my), (Z.add_comm ex ey).
Qed.

Lemma cond_Zopp_negb (b : bool) (m : Z) : cond_Zopp (negb b) m = (- cond_Zopp b m)%Z.
Proof. destruct b; simpl; lia. Qed.

(** [x - y] and [(-y) - (-x)] are the same binary64 number, signs of zeros
    and NaN included. *)
Lemma float_sub_opp x y : (x - y)%float = (- y - - x)%float.
Proof.
  apply Prim2SF_inj. rewrite !sub_spec, !opp_spec. unfold SF64sub, SFsub, SFopp.
  destruct (Prim2SF x) as [sx|sx| |sx mx ex], (Prim2SF y) as [sy|sy| |sy my ey];
    try reflexivity;
    try (destruct sx, sy; reflexivity);
    try (destruct sx; reflexivity).
  cbv zeta. rewrite (Z.min_comm ey ex), !cond_Zopp_negb. f_equal. lia.
Qed.

(** [is_finite] read on the specification: neither NaN nor an infinity. *)
Lemma is_finite_spec x :
  is_finite x = match Prim2SF x with
                | S754_nan | S754_infinity _ => false
                | _ => true
                end.
Proof.
  unfold is_finite, is_nan, is_infinity.
  rewrite !FloatAxioms.eqb_spec, abs_spec.
  change (Prim2SF infinity) with (S754_infinity false).
  destruct (Prim2SF x) as [s|s| |s m e];
    try (destruct s; reflexivity); try reflexivity.
  unfold SFabs, SFeqb, SFcompare.
  rewrite Z.compare_refl, Pos.compare_cont_refl.
  destruct s; reflexivity.
Qed.

Lemma is_zero_spec y : is_zero y = true -> exists s, Prim2SF y = S754_zero s.
Proof.
  unfold is_zero. rewrite FloatAxioms.eqb_spec.
  change (Prim2SF zero) with (S754_zero false).
  destruct (Prim2SF y) as [s|s| |s m e];
    try (destruct s; discriminate); try discriminate.
  eauto.
Qed.

(** A division by zero gives an infinity or NaN, and they spread through
    sums and differences. *)
Lemma div_zero_not_finite x y : is_zero y = true -> is_finite (x / y) = false.
Proof.
  intros [s Hy]%is_zero_spec. rewrite is_finite_spec, div_spec, Hy.
  destruct (Prim2SF x); reflexivity.
Qed.

Lemma add_not_finite x y : is_finite y = false -> is_finite (x + y) = false.
Proof.
  rewrite !is_finite_spec, add_spec.
  destruct (Prim2SF x) as [s|s| |s m e], (Prim2SF y) as [s'|s'| |s' m' e'];
    try discriminate; try reflexivity; intros _; destruct s, s'; reflexivity.
Qed.

Lemma sub_not_finite_l x y : is_finite x = false -> is_finite (x - y) = false.
Proof.
  rewrite !is_finite_spec, sub_spec.
  destruct (Prim2SF x) as [s|s| |s m e], (Prim2SF y) as [s'|s'| |s' m' e'];
    try discriminate; try reflexivity; intros _; destruct s, s'; reflexivity.
Qed.

Lemma sub_not_finite_r x y : is_finite y = false -> is_finite (x - y) = false.
Proof.
  rewrite !is_finite_spec, sub_spec.
  destruct (Prim2SF x) as [s|s| |s m e], (Prim2SF y) as [s'|s'| |s' m' e'];
    try discriminate; try reflexivity; intros _; destruct s, s'; reflexivity.
Qed.

(** numpy's [x == x] holds unless [x] is NaN. *)
Lemma float_eqb_refl x : is_nan x = false -> (x =? x)%float = true.
Proof. unfold is_nan. now destruct (x =? x)%float. Qed.

End Binary64.

(** ** Reasoning on statements *)

Lemma run_bind {A B} (m : M A) (f : A -> M B) (s : store) :
  (m ≫= f) s = match m s with
                | (s', Ok a) => f a s'
                | (s', Raise e) => (s', Raise e)
                end.
Proof. reflexivity. Qed.

Lemma bind_Ok_inv {A B} (m : M A) (f : A -> M B) (s s' : store) (b : B) :
  (m ≫= f) s = (s', Ok b) ->
  exists a s1, m s = (s1, Ok a) /\ f a s1 = (s', Ok b).
Proof.
  rewrite run_bind. destruct (m s) as [s1 [a|e]]; [eauto|discriminate].
Qed.

Lemma keeps_ret {A} (a : A) : keeps (mret a).
Proof. intros s. reflexivity. Qed.

Lemma keeps_bind {A B} (m : M A) (f : A -> M B) :
  keeps m -> (forall a, keeps (f a)) -> keeps (m ≫= f).
Proof.
  intros Hm Hf s. rewrite run_bind. specialize (Hm s).
  destruct (m s) as [s1 [a|e]]; simpl in *.
  - now rewrite Hf.
  - assumption.
Qed.

Lemma keeps_eval {A} (e : store -> result A) : keeps (eval e).
Proof. intros s. reflexivity. Qed.

Lemma keeps_fdiv x y : keeps (fdiv x y).
Proof. intros s. reflexivity. Qed.

Lemma keeps_set_H_new (F : store -> ndarray2) :
  keeps (modify (fun s => set_H_new (F s) s)).
Proof. intros s. reflexivity. Qed.

Lemma keeps_for_in (l : list nat) (body : nat -> M unit) :
  (forall i, keeps (body i)) -> keeps (for_in l body).
Proof.
  intros Hb. induction l as [|i l IH]; simpl.
  - apply keeps_ret.
  - apply keeps_bind; [apply Hb | intros _; apply IH].
Qed.

Create HintDb keeps.
#[local] Hint Resolve keeps_ret keeps_eval keeps_fdiv keeps_for_in : keeps.

Lemma keeps_add_T1 gq i j : keeps (add_T1 gq i j).
Proof.
  unfold add_T1.
  repeat (apply keeps_bind; [auto with keeps | intros ?]).
  apply (keeps_set_H_new (fun _ => _)).
Qed.

Lemma keeps_sub_T2 Hdq dqHdq i j : keeps (sub_T2 Hdq dqHdq i j).
Proof.
  unfold sub_T2.
  repeat (apply keeps_bind; [auto with keeps | intros ?]).
  apply (keeps_set_H_new (fun _ => _)).
Qed.

Lemma keeps_bfgs_loops : keeps bfgs_loops.
Proof.
  unfold bfgs_loops, for_range.
  repeat (apply keeps_bind; [auto using keeps_add_T1, keeps_sub_T2 with keeps | intros ?]).
  auto using keeps_sub_T2 with keeps.
Qed.

Lemma keeps_update_bfgs : keeps update_bfgs.
Proof.
  unfold update_bfgs, alloc_H_new.
  apply keeps_bind; [apply keeps_set_H_new | intros _; apply keeps_bfgs_loops].
Qed.

Lemma triple_bind {A B} P (m : M A) Q (f : A -> M B) R :
  triple P m Q -> (forall a, triple (Q a) (f a) R) -> triple P (m ≫= f) R.
Proof.
  intros Hm Hf s HP. destruct (Hm s HP) as (a & s1 & E & HQ).
  rewrite run_bind, E. now apply Hf.
Qed.

Lemma triple_for_in_seq (body : nat -> M unit) (I : nat -> store -> Prop) n k :
  (forall i, k <= i < k + n -> triple (I i) (body i) (fun _ => I (S i))) ->
  triple (I k) (for_in (seq k n) body) (fun _ => I (k + n)).
Proof.
  revert k. induction n as [|n IH]; intros k Hb; simpl.
  - intros s HI. exists tt, s. split; [reflexivity|].
    now rewrite Nat.add_0_r.
  - eapply triple_bind; [apply Hb; lia|]. intros u. cbv beta.
    replace (k + S n) with (S k + n) by lia.
    apply IH. intros i Hi. apply Hb. lia.
Qed.

Lemma triple_for_range (body : nat -> M unit) (I : nat -> store -> Prop) n :
  (forall i, i < n -> triple (I i) (body i) (fun _ => I (S i))) ->
  triple (I 0) (for_range n body) (fun _ => I n).
Proof.
  intros Hb. apply (triple_for_in_seq body I n 0).
  intros i Hi. apply Hb. lia.
Qed.

(** *** Two nested loops that rewrite [H_new] entry by entry

    Both pairs of loops of the cell have the same shape: at [(i, j)] the body
    does one division by [d] and replaces the entry [old] of [H_new] by
    [g i j old]. *)

Section Fill.

Variables (n : nat) (body : nat -> nat -> M unit).
Variables (g : nat -> nat -> float -> float) (d : float) (s0 : store).

Hypothesis shape0 :
  ncols (H_new s0) = n /\ nrows (H_new s0) = n /\ wf2 (H_new s0) = true.

Hypothesis body_spec : forall i j s old,
  i < n -> j < n -> inputs s = inputs s0 ->
  ncols (H_new s) = n -> nrows (H_new s) = n -> wf2 (H_new s) = true ->
  getitem2 (H_new s) i j = Ok old ->
  exists M', setitem2 (H_new s) i j (g i j old) = Ok M' /\
             body i j s = (set_H_new M' (log_divisor d s), Ok tt).

Lemma fill_inv_start : fill_inv n g d s0 0 0 s0.
Proof.
  destruct shape0 as (Hc & Hr & Hwf).
  repeat split; try assumption.
  - simpl. now rewrite app_nil_r.
  - intros a b old _ _ E. rewrite E. case_decide; [lia|reflexivity].
Qed.

Lemma fill_inv_next_row i s : fill_inv n g d s0 i n s -> fill_inv n g d s0 (S i) 0 s.
Proof.
  intros (Hin & Hc & Hr & Hwf & Hd & He).
  repeat split; try assumption.
  - rewrite Hd. do 2 f_equal. lia.
  - intros a b old Ha Hb E. rewrite (He a b old Ha Hb E).
    repeat case_decide; try reflexivity; lia.
Qed.

Lemma fill_step i j :
  i < n -> j < n ->
  triple (fill_inv n g d s0 i j) (body i j) (fun _ => fill_inv n g d s0 i (S j)).
Proof.
  intros Hi Hj s (Hin & Hc & Hr & Hwf & Hd & He).
  destruct shape0 as (Hc0 & Hr0 & Hwf0).
  destruct (getitem2_lt (H_new s0) i j) as [old Hold]; try lia; try assumption.
  pose proof (He i j old Hi Hj Hold) as Hcur.
  rewrite decide_False in Hcur by lia.
  destruct (body_spec i j s old Hi Hj Hin Hc Hr Hwf Hcur) as (M' & Hset & Hrun).
  destruct (setitem2_shape _ _ _ _ _ Hset) as (Hc' & Hr' & Hwf').
  exists tt, (set_H_new M' (log_divisor d s)). split; [exact Hrun|].
  repeat split; simpl.
  - exact Hin.
  - congruence.
  - congruence.
  - auto.
  - rewrite Hd, <- app_assoc. f_equal.
    replace (i * n + S j) with (S (i * n + j)) by lia.
    now rewrite replicate_S_end.
  - intros a b old' Ha Hb E.
    destruct (decide ((a, b) = (i, j))) as [Heq|Hne].
    + injection Heq as -> ->.
      rewrite (getitem2_setitem2_eq _ _ _ _ _ Hwf Hset).
      rewrite decide_True by lia. congruence.
    + rewrite (getitem2_setitem2_ne _ _ _ _ _ _ _ Hset Hne).
      rewrite (He a b old' Ha Hb E).
      assert (a <> i \/ b <> j) by (destruct (decide (a = i)); [right|left]; congruence).
      repeat case_decide; try reflexivity; lia.
Qed.

Lemma fill_loops :
  triple (fill_inv n g d s0 0 0)
         (for_range n (fun i => for_range n (fun j => body i j)))
         (fun _ => fill_inv n g d s0 n 0).
Proof.
  apply (triple_for_range _ (fun i => fill_inv n g d s0 i 0)).
  intros i Hi s HI.
  destruct (triple_for_range (body i) (fun j => fill_inv n g d s0 i j) n
              (fun j Hj => fill_step i j Hi Hj) s HI) as (u & s' & E & HI').
  exists u, s'. split; [exact E|]. now apply fill_inv_next_row.
Qed.

End Fill.

(** ** What the update computes *)

Lemma at1_getitem v i x : getitem v i = Ok x -> at1 v i = x.
Proof. intros E%getitem_Ok. unfold at1. now rewrite E. Qed.

Lemma at2_getitem2 M i j x : getitem2 M i j = Ok x -> at2 M i j = x.
Proof.
  unfold getitem2, at2. destruct (Nat.ltb j (ncols M)); [|discriminate].
  destruct (rowsof M !! i) as [r|]; [|discriminate]. apply at1_getitem.
Qed.

Lemma inputs_inv s s' :
  inputs s = inputs s' ->
  Nintco s = Nintco s' /\ H s = H s' /\ dq s = dq s' /\ dg s = dg s'.
Proof. unfold inputs. intros E. injection E. auto. Qed.

Lemma well_shaped_inv s :
  well_shaped s = true ->
  wf2 (H s) = true /\ nrows (H s) = Nintco s /\ ncols (H s) = Nintco s /\
  length (dq s) = Nintco s /\ length (dg s) = Nintco s.
Proof.
  unfold well_shaped. rewrite !andb_true_iff, !Nat.eqb_eq. tauto.
Qed.

Lemma length_Hdq s : length (Hdq s) = nrows (H s).
Proof. unfold Hdq, nrows. apply length_map. Qed.

Lemma add_T1_spec s0 i j s old :
  well_shaped s0 = true ->
  i < Nintco s0 -> j < Nintco s0 -> inputs s = inputs s0 ->
  ncols (H_new s) = Nintco s0 -> nrows (H_new s) = Nintco s0 ->
  wf2 (H_new s) = true ->
  getitem2 (H_new s) i j = Ok old ->
  exists M', setitem2 (H_new s) i j (with_T1 s0 i j) = Ok M' /\
             add_T1 (gq s0) i j s = (set_H_new M' (log_divisor (gq s0) s), Ok tt).
Proof.
  intros Hs0 Hi Hj Hin Hc Hr Hwf _.
  apply well_shaped_inv in Hs0 as (HwfH & HrH & HcH & Hldq & Hldg).
  apply inputs_inv in Hin as (_ & EH & _ & Edg).
  destruct (getitem2_lt (H s0) i j) as [h Hh]; try lia; try assumption.
  destruct (getitem_lt (dg s0) i) as [a Ha]; [lia|].
  destruct (getitem_lt (dg s0) j) as [b Hb]; [lia|].
  destruct (setitem2_lt (H_new s) i j (with_T1 s0 i j)) as [M' HM']; [lia|lia|].
  exists M'. split; [exact HM'|].
  unfold add_T1. rewrite run_bind. unfold eval at 1. rewrite EH, Hh.
  rewrite run_bind. unfold eval at 1. rewrite Edg, Ha.
  rewrite run_bind. unfold eval at 1. rewrite Edg, Hb.
  rewrite run_bind. unfold fdiv at 1.
  rewrite run_bind. unfold eval at 1. simpl H_new.
  unfold with_T1 in HM'.
  rewrite (at2_getitem2 _ _ _ _ Hh), (at1_getitem _ _ _ Ha), (at1_getitem _ _ _ Hb) in HM'.
  rewrite HM'. reflexivity.
Qed.

Lemma sub_T2_spec s0 i j s old :
  well_shaped s0 = true ->
  i < Nintco s0 -> j < Nintco s0 ->
  ncols (H_new s) = Nintco s0 -> nrows (H_new s) = Nintco s0 ->
  wf2 (H_new s) = true ->
  getitem2 (H_new s) i j = Ok old ->
  exists M', setitem2 (H_new s) i j (less_T2 s0 i j old) = Ok M' /\
             sub_T2 (Hdq s0) (dqHdq s0) i j s
             = (set_H_new M' (log_divisor (dqHdq s0) s), Ok tt).
Proof.
  intros Hs0 Hi Hj Hc Hr Hwf Hold.
  apply well_shaped_inv in Hs0 as (HwfH & HrH & HcH & Hldq & Hldg).
  destruct (getitem_lt (Hdq s0) i) as [a Ha]; [rewrite length_Hdq; lia|].
  destruct (getitem_lt (Hdq s0) j) as [b Hb]; [rewrite length_Hdq; lia|].
  destruct (setitem2_lt (H_new s) i j (less_T2 s0 i j old)) as [M' HM']; [lia|lia|].
  exists M'. split; [exact HM'|].
  unfold sub_T2. rewrite run_bind. unfold eval at 1. rewrite Hold.
  rewrite run_bind. unfold eval at 1. rewrite Ha.
  rewrite run_bind. unfold eval at 1. rewrite Hb.
  rewrite run_bind. unfold fdiv at 1.
  rewrite run_bind. unfold eval at 1. simpl H_new.
  unfold less_T2 in HM'.
  rewrite (at1_getitem _ _ _ Ha), (at1_getitem _ _ _ Hb) in HM'.
  rewrite HM'. reflexivity.
Qed.

(** The loops on well-shaped inputs and an [H_new] of the right shape: no
    exception, [Nintco * Nintco] divisions by [gq] and then as many by
    [dqHdq], and every entry of [H_new] rewritten. *)
Lemma bfgs_loops_correct s0 :
  well_shaped s0 = true ->
  ncols (H_new s0) = Nintco s0 -> nrows (H_new s0) = Nintco s0 ->
  wf2 (H_new s0) = true ->
  exists s', bfgs_loops s0 = (s', Ok tt) /\ inputs s' = inputs s0 /\
    ncols (H_new s') = Nintco s0 /\ nrows (H_new s') = Nintco s0 /\
    wf2 (H_new s') = true /\
    divisors s' = divisors s0 ++ replicate (Nintco s0 * Nintco s0) (gq s0)
                              ++ replicate (Nintco s0 * Nintco s0) (dqHdq s0) /\
    forall i j, i < Nintco s0 -> j < Nintco s0 ->
      getitem2 (H_new s') i j = Ok (less_T2 s0 i j (with_T1 s0 i j)).
Proof.
  intros Hs0 Hc Hr Hwf. set (n := Nintco s0) in *.
  pose proof (well_shaped_inv s0 Hs0) as (HwfH & HrH & HcH & Hldq & Hldg).
  unfold bfgs_loops.
  rewrite run_bind. unfold eval at 1.
  rewrite dot_Ok by congruence. fold (gq s0).
  rewrite run_bind. unfold eval at 1. fold n.
  rewrite run_bind.
  destruct (fill_loops n (add_T1 (gq s0)) (fun i j _ => with_T1 s0 i j) (gq s0) s0
              (conj Hc (conj Hr Hwf))
              (fun i j s old Hi Hj Hin => add_T1_spec s0 i j s old Hs0 Hi Hj Hin)
              s0)
    as ([] & s1 & E1 & Hin1 & Hc1 & Hr1 & Hwf1 & Hd1 & He1).
  { apply fill_inv_start. auto. }
  rewrite E1.
  pose proof (inputs_inv _ _ Hin1) as (EN & EH & Edq & Edg).
  rewrite run_bind. unfold eval at 1. unfold dot21.
  rewrite EH, Edq.
  replace (Nat.eqb (ncols (H s0)) (length (dq s0))) with true
    by (symmetry; apply Nat.eqb_eq; congruence).
  fold (Hdq s0).
  rewrite run_bind. unfold eval at 1.
  rewrite Edq, dot_Ok by (rewrite length_Hdq; congruence). fold (dqHdq s0).
  destruct (fill_loops n (sub_T2 (Hdq s0) (dqHdq s0)) (less_T2 s0) (dqHdq s0) s1
              (conj Hc1 (conj Hr1 Hwf1))
              (fun i j s old Hi Hj _ => sub_T2_spec s0 i j s old Hs0 Hi Hj)
              s1)
    as ([] & s2 & E2 & Hin2 & Hc2 & Hr2 & Hwf2 & Hd2 & He2).
  { apply fill_inv_start. auto. }
  exists s2. split; [exact E2|].
  repeat split; try assumption.
  - congruence.
  - rewrite Hd2, Hd1, <- app_assoc. now rewrite !Nat.add_0_r.
  - intros i j Hi Hj.
    destruct (getitem2_lt (H_new s0) i j) as [old Hold]; try lia; try assumption.
    pose proof (He1 i j old Hi Hj Hold) as E. rewrite decide_True in E by lia.
    rewrite (He2 i j _ Hi Hj E). rewrite decide_True by lia. reflexivity.
Qed.

(** The update on well-shaped inputs. *)
Lemma update_bfgs_correct s :
  well_shaped s = true ->
  exists s', update_bfgs s = (s', Ok tt) /\ inputs s' = inputs s /\
    ncols (H_new s') = Nintco s /\ nrows (H_new s') = Nintco s /\
    wf2 (H_new s') = true /\
    divisors s' = divisors s ++ replicate (Nintco s * Nintco s) (gq s)
                             ++ replicate (Nintco s * Nintco s) (dqHdq s) /\
    forall i j, i < Nintco s -> j < Nintco s ->
      getitem2 (H_new s') i j = Ok (less_T2 s i j (with_T1 s i j)).
Proof.
  intros Hs. unfold update_bfgs. rewrite run_bind. unfold alloc_H_new, modify at 1.
  set (s0 := set_H_new (zeros2 (Nintco s) (Nintco s)) s).
  destruct (zeros2_shape (Nintco s) (Nintco s)) as (Hc & Hr & Hwf).
  apply (bfgs_loops_correct s0); assumption.
Qed.

Lemma well_shaped_dots s :
  well_shaped s = true ->
  dot (dq s) (dg s) = Ok (gq s) /\ dot21 (H s) (dq s) = Ok (Hdq s) /\
  dot (dq s) (Hdq s) = Ok (dqHdq s).
Proof.
  intros (HwfH & HrH & HcH & Hldq & Hldg)%well_shaped_inv.
  split; [apply dot_Ok; congruence|]. split.
  - unfold dot21. rewrite HcH, Hldq, Nat.eqb_refl. reflexivity.
  - apply dot_Ok. rewrite length_Hdq. congruence.
Qed.

Lemma well_shaped_reads s i j :
  well_shaped s = true -> i < Nintco s -> j < Nintco s ->
  exists h a b x y,
    getitem2 (H s) i j = Ok h /\ getitem (dg s) i = Ok a /\ getitem (dg s) j = Ok b /\
    getitem (Hdq s) i = Ok x /\ getitem (Hdq s) j = Ok y /\
    less_T2 s i j (with_T1 s i j) = (h + a * b / gq s - x * y / dqHdq s)%float.
Proof.
  intros (HwfH & HrH & HcH & Hldq & Hldg)%well_shaped_inv Hi Hj.
  destruct (getitem2_lt (H s) i j) as [h Hh]; try lia; try assumption.
  destruct (getitem_lt (dg s) i) as [a Ha]; [lia|].
  destruct (getitem_lt (dg s) j) as [b Hb]; [lia|].
  destruct (getitem_lt (Hdq s) i) as [x Hx]; [rewrite length_Hdq; lia|].
  destruct (getitem_lt (Hdq s) j) as [y Hy]; [rewrite length_Hdq; lia|].
  exists h, a, b, x, y. repeat split; try assumption.
  unfold less_T2, with_T1.
  now rewrite (at2_getitem2 _ _ _ _ Hh), (at1_getitem _ _ _ Ha),
    (at1_getitem _ _ _ Hb), (at1_getitem _ _ _ Hx), (at1_getitem _ _ _ Hy).
Qed.

(** ** The properties of the update *)

(** C1. For every [Nintco] by [Nintco] matrix [H] and vectors [dq], [dg] of
    length [Nintco] such that [gq = np.dot(dq, dg)] and
    [dqHdq = np.dot(dq, np.dot(H, dq))] are nonzero, the update ends without
    an exception and leaves an [Nintco] by [Nintco] array [H_new] with
    [H_new[i,j] = H[i,j] + dg[i]*dg[j]/gq - Hdq[i]*Hdq[j]/dqHdq] for all
    [i], [j], where [Hdq = np.dot(H, dq)].  (The operations are the binary64
    ones, in this order.) *)
Theorem update_bfgs_formula (s : store) :
  well_shaped s = true ->
  is_zero (gq s) = false -> is_zero (dqHdq s) = false ->
  dot (dq s) (dg s) = Ok (gq s) /\ dot21 (H s) (dq s) = Ok (Hdq s) /\
  dot (dq s) (Hdq s) = Ok (dqHdq s) /\
  exists s', update_bfgs s = (s', Ok tt) /\
    ncols (H_new s') = Nintco s /\ nrows (H_new s') = Nintco s /\
    forall i j, i < Nintco s -> j < Nintco s ->
      exists h a b x y,
        getitem2 (H s) i j = Ok h /\
        getitem (dg s) i = Ok a /\ getitem (dg s) j = Ok b /\
        getitem (Hdq s) i = Ok x /\ getitem (Hdq s) j = Ok y /\
        getitem2 (H_new s') i j = Ok (h + a * b / gq s - x * y / dqHdq s)%float.
Proof.
  intros Hs _ _.
  destruct (well_shaped_dots s Hs) as (E1 & E2 & E3).
  repeat (split; [assumption|]).
  destruct (update_bfgs_correct s Hs) as (s' & Hrun & _ & Hc & Hr & _ & _ & He).
  exists s'. repeat (split; [assumption|]).
  intros i j Hi Hj.
  destruct (well_shaped_reads s i j Hs Hi Hj) as (h & a & b & x & y & ? & ? & ? & ? & ? & E).
  exists h, a, b, x, y. repeat (split; [assumption|]).
  rewrite (He i j Hi Hj). now rewrite E.
Qed.

(** C2. For every symmetric [Nintco] by [Nintco] matrix [H] and all vectors
    [dq], [dg] of length [Nintco] with nonzero denominators, the array
    [H_new] the update leaves is symmetric: [H_new[i,j]] and [H_new[j,i]] are
    the same binary64 number for all [i], [j] (and so compare equal with
    [==], unless that number is NaN, which [==] tells from itself). *)
Theorem update_bfgs_symmetric (s : store) :
  well_shaped s = true ->
  (forall i j, i < Nintco s -> j < Nintco s ->
     getitem2 (H s) i j = getitem2 (H s) j i) ->
  is_zero (gq s) = false -> is_zero (dqHdq s) = false ->
  exists s', update_bfgs s = (s', Ok tt) /\
    forall i j, i < Nintco s -> j < Nintco s ->
      exists x y, getitem2 (H_new s') i j = Ok x /\ getitem2 (H_new s') j i = Ok y /\
        x = y /\ (is_nan x = false -> (x =? y)%float = true).
Proof.
  intros Hs Hsym _ _.
  destruct (update_bfgs_correct s Hs) as (s' & Hrun & _ & Hc & Hr & _ & _ & He).
  exists s'. split; [assumption|].
  intros i j Hi Hj.
  exists (less_T2 s i j (with_T1 s i j)), (less_T2 s j i (with_T1 s j i)).
  split; [now apply He|]. split; [now apply He|].
  assert (E : less_T2 s i j (with_T1 s i j) = less_T2 s j i (with_T1 s j i)).
  { destruct (well_shaped_reads s i j Hs Hi Hj) as (h & a & b & x & y & Hh & _).
    pose proof (Hsym i j Hi Hj) as Hh'. rewrite Hh in Hh'. symmetry in Hh'.
    unfold less_T2, with_T1.
    rewrite (at2_getitem2 _ _ _ _ Hh), (at2_getitem2 _ _ _ _ Hh').
    now rewrite (float_mul_comm (at1 (dg s) j)), (float_mul_comm (at1 (Hdq s) j)). }
  split; [exact E|]. rewrite <- E. apply float_eqb_refl.
Qed.

(** *** Small denominators *)

(** C3. On [tiny_step] both [|gq|] and [|dqHdq|] are below the floor, and the
    cell performs the update all the same: it ends without an exception and
    [H_new] is not [H] ([H_new[0,0]] is [1.0], [H[0,0]] is [0.75]). *)
Lemma update_bfgs_below_floor :
  well_shaped tiny_step = true /\
  (abs (gq tiny_step) <? min_denominator)%float = true /\
  (abs (dqHdq tiny_step) <? min_denominator)%float = true /\
  update_bfgs tiny_step =
    (Store 3 (H tiny_step) (dq tiny_step) (dg tiny_step)
           (Arr2 3 [[1; 0; 0]; [0; 0.75; 0]; [0; 0; 0.125]]%float)
           [] [] [] []
           (replicate 9 0x1p-60 ++ replicate 9 0x1.8p-61)%float,
     Ok tt).
Proof. repeat split; vm_compute; reflexivity. Qed.

(** C4. On [no_step] both denominators are zero; the cell divides by them,
    ends without an exception and leaves an [H_new] whose nine entries are
    NaN. *)
Lemma update_bfgs_nan :
  well_shaped no_step = true /\
  gq no_step = 0%float /\ dqHdq no_step = 0%float /\
  update_bfgs no_step =
    (Store 3 (H no_step) (dq no_step) (dg no_step)
           (Arr2 3 (replicate 3 (replicate 3 nan)))
           [] [] [] [] (replicate 18 0%float),
     Ok tt).
Proof. repeat split; vm_compute; reflexivity. Qed.

(** More generally: on well-shaped inputs with [gq] or [dqHdq] zero the update
    is carried out, and no entry of the [H_new] it leaves is finite. *)
Theorem update_bfgs_zero_denominator (s : store) :
  well_shaped s = true ->
  is_zero (gq s) = true \/ is_zero (dqHdq s) = true ->
  exists s', update_bfgs s = (s', Ok tt) /\
    forall i j, i < Nintco s -> j < Nintco s ->
      exists x, getitem2 (H_new s') i j = Ok x /\ is_finite x = false.
Proof.
  intros Hs Hz.
  destruct (update_bfgs_correct s Hs) as (s' & Hrun & _ & _ & _ & _ & _ & He).
  exists s'. split; [assumption|].
  intros i j Hi Hj. eexists. split; [now apply He|].
  unfold less_T2, with_T1. destruct Hz as [Hz|Hz].
  - now apply sub_not_finite_l, add_not_finite, div_zero_not_finite.
  - now apply sub_not_finite_r, div_zero_not_finite.
Qed.

(** *** Shapes that do not fit *)

(** C5, as stated, fails on [too_long]: [H] is one by one, [dq] and [dg] have
    two entries, and the exception ([ValueError], from [np.dot(H, dq)]) comes
    after [gq] was computed, a division by it executed and [H_new[0,0]]
    written. *)
Lemma update_bfgs_raises_late :
  (wf2 (H too_long) = true /\ nrows (H too_long) = 1 /\ ncols (H too_long) = 1 /\
   Nintco too_long = 1 /\ length (dq too_long) = 2 /\ length (dg too_long) = 2) /\
  update_bfgs too_long =
    (Store 1 (H too_long) (dq too_long) (dg too_long) (Arr2 1 [[1.5]]%float)
           [] [] [] [] [2]%float,
     Raise ValueError) /\
  ~ raises_before_computing too_long.
Proof.
  split; [repeat split|]. split; [vm_compute; reflexivity|].
  intros [e He]. vm_compute in He. discriminate He.
Qed.

(** C5, amended.  Whenever [H] is not square or [dq] or [dg] has another
    length than [H] has rows, the update ends in an exception of numpy
    ([ValueError] or [IndexError]), and [H], [dq] and [dg] are as they were;
    this for any [Nintco].  (When the exception comes is not said: on
    [too_long] it comes after the first pair of loops.) *)
Theorem update_bfgs_mismatch_raises (s : store) :
  ~ (nrows (H s) = ncols (H s) /\ length (dq s) = nrows (H s) /\
     length (dg s) = nrows (H s)) ->
  exists s' e, update_bfgs s = (s', Raise e) /\
    H s' = H s /\ dq s' = dq s /\ dg s' = dg s.
Proof.
  intros Hbad.
  pose proof (keeps_update_bfgs s) as Hk.
  destruct (update_bfgs s) as [s' [[]|e]] eqn:Hrun.
  - exfalso. apply Hbad. clear Hk.
    unfold update_bfgs in Hrun.
    apply bind_Ok_inv in Hrun as ([] & s0 & Ealloc & Hrun).
    assert (Hin0 : inputs s0 = inputs s).
    { injection Ealloc as <-. reflexivity. }
    apply inputs_inv in Hin0 as (_ & EH0 & Edq0 & Edg0).
    unfold bfgs_loops in Hrun.
    apply bind_Ok_inv in Hrun as (g & s1 & E1 & Hrun).
    unfold eval in E1. injection E1 as <- E1.
    apply dot_Ok_inv in E1 as (Hlen1 & _).
    apply bind_Ok_inv in Hrun as (n & s2 & E2 & Hrun).
    unfold eval in E2. injection E2 as <- _.
    apply bind_Ok_inv in Hrun as ([] & s3 & E3 & Hrun).
    assert (Hin3 : inputs s3 = inputs s0).
    { pose proof (keeps_for_in (seq 0 n)
        (fun i => for_range n (fun j => add_T1 g i j))
        (fun i => keeps_for_in _ _ (fun j => keeps_add_T1 g i j)) s0) as Hk.
      unfold for_range in E3 at 1. rewrite E3 in Hk. exact Hk. }
    apply inputs_inv in Hin3 as (_ & EH3 & Edq3 & _).
    apply bind_Ok_inv in Hrun as (w & s4 & E4 & Hrun).
    unfold eval in E4. injection E4 as <- E4.
    apply dot21_Ok_inv in E4 as (Hlen2 & ->).
    apply bind_Ok_inv in Hrun as (d & s5 & E5 & _).
    unfold eval in E5. injection E5 as <- E5.
    apply dot_Ok_inv in E5 as (Hlen3 & _).
    rewrite length_map in Hlen3. fold (nrows (H s3)) in Hlen3.
    repeat split; congruence.
  - exists s', e. split; [reflexivity|].
    simpl in Hk. apply inputs_inv in Hk as (_ & ? & ? & ?). auto.
Qed.

Lemma update_bfgs_mismatch_raises_witness :
  ~ (nrows (H too_long) = ncols (H too_long) /\
     length (dq too_long) = nrows (H too_long) /\
     length (dg too_long) = nrows (H too_long)) /\
  exists s' e, update_bfgs too_long = (s', Raise e) /\
    H s' = H too_long /\ dq s' = dq too_long /\ dg s' = dg too_long.
Proof.
  assert (Hbad : ~ (nrows (H too_long) = ncols (H too_long) /\
                    length (dq too_long) = nrows (H too_long) /\
                    length (dg too_long) = nrows (H too_long))).
  { simpl. lia. }
  split; [exact Hbad | exact (update_bfgs_mismatch_raises too_long Hbad)].
Defined.

(** *** No internal coordinate *)

(** C6. With [Nintco = 0], an empty [H] and empty [dq] and [dg], the update
    ends without an exception: no loop body runs, no division is executed,
    and [H_new] is the empty array of shape [(0, 0)]. *)
Theorem update_bfgs_no_coordinates (s : store) :
  Nintco s = 0 -> H s = zeros2 0 0 -> dq s = [] -> dg s = [] ->
  update_bfgs s = (set_H_new (Arr2 0 []) s, Ok tt).
Proof.
  destruct s as [n M q g Mn q1 q2 f1 f2 ds]. simpl.
  intros -> -> -> ->. reflexivity.
Qed.

Lemma update_bfgs_no_coordinates_witness :
  Nintco no_coordinates = 0 /\ H no_coordinates = zeros2 0 0 /\
  dq no_coordinates = [] /\ dg no_coordinates = [] /\
  update_bfgs no_coordinates = (set_H_new (Arr2 0 []) no_coordinates, Ok tt).
Proof.
  repeat (split; [reflexivity|]).
  apply (update_bfgs_no_coordinates no_coordinates); reflexivity.
Defined.

(** *** The inputs are read only *)

(** C9. Whatever the update does, and so when it succeeds, [H], [dq] and
    [dg] (and [Nintco] and the arrays the displacements were formed from) are
    afterwards what they were before it: the update writes to [H_new]
    only. *)
Theorem update_bfgs_keeps_inputs (s : store) :
  let s' := fst (update_bfgs s) in
  H s' = H s /\ dq s' = dq s /\ dg s' = dg s /\ Nintco s' = Nintco s /\
  q_1 s' = q_1 s /\ q_2 s' = q_2 s /\ f_q1 s' = f_q1 s /\ f_q2 s' = f_q2 s.
Proof.
  intros s'. pose proof (keeps_update_bfgs s) as Hk. fold s' in Hk.
  unfold inputs in Hk. injection Hk. auto 10.
Qed.

(** *** The divisions *)

(** C10. On well-shaped inputs with [gq] and [dqHdq] nonzero the update ends
    without an exception, the divisors of the divisions it has executed are
    [Nintco * Nintco] times [gq] and then [Nintco * Nintco] times [dqHdq],
    and so none of them is zero. *)
Theorem update_bfgs_divisors (s : store) :
  well_shaped s = true ->
  is_zero (gq s) = false -> is_zero (dqHdq s) = false ->
  exists s', update_bfgs s = (s', Ok tt) /\
    exists ds, divisors s' = divisors s ++ ds /\
      ds = replicate (Nintco s * Nintco s) (gq s)
           ++ replicate (Nintco s * Nintco s) (dqHdq s) /\
      Forall (fun d => (d = gq s \/ d = dqHdq s) /\ is_zero d = false) ds.
Proof.
  intros Hs Hg Hd.
  destruct (update_bfgs_correct s Hs) as (s' & Hrun & _ & _ & _ & _ & Hds & _).
  exists s'. split; [assumption|].
  eexists. split; [exact Hds|]. split; [reflexivity|].
  apply Forall_app. split; apply Forall_replicate; auto.
Qed.

(** *** The result depends on [H], [dq] and [dg] only *)

Lemma same_run_ret {A} (a : A) : same_run (mret a).
Proof. intros s1 s2 Hv. split; [reflexivity|exact Hv]. Qed.

Lemma same_run_bind {A B} (m : M A) (f : A -> M B) :
  same_run m -> (forall a, same_run (f a)) -> same_run (m ≫= f).
Proof.
  intros Hm Hf s1 s2 Hv. rewrite !run_bind.
  destruct (Hm s1 s2 Hv) as [Hr Hv'].
  destruct (m s1) as [t1 r1], (m s2) as [t2 r2]. simpl in Hr, Hv'. subst r2.
  destruct r1 as [a|e]; [now apply Hf|].
  split; [reflexivity|exact Hv'].
Qed.

Lemma same_run_eval {A} (e : store -> result A) :
  (forall s1 s2, view s1 = view s2 -> e s1 = e s2) -> same_run (eval e).
Proof. intros He s1 s2 Hv. split; [now apply He|exact Hv]. Qed.

Lemma same_run_fdiv x y : same_run (fdiv x y).
Proof. intros s1 s2 Hv. split; [reflexivity|exact Hv]. Qed.

Lemma same_run_set_H_new (M' : ndarray2) : same_run (modify (set_H_new M')).
Proof.
  intros s1 s2 Hv. split; [reflexivity|].
  unfold view in *. simpl. injection Hv as -> -> -> -> _. reflexivity.
Qed.

Lemma same_run_for_in (l : list nat) (body : nat -> M unit) :
  (forall i, same_run (body i)) -> same_run (for_in l body).
Proof.
  intros Hb. induction l as [|i l IH]; simpl.
  - apply same_run_ret.
  - apply same_run_bind; [apply Hb | intros _; apply IH].
Qed.

Ltac same_view :=
  let s1 := fresh "s" in let s2 := fresh "s" in let Hv := fresh "Hv" in
  intros s1 s2 Hv; unfold view in Hv; injection Hv; intros; congruence.

Ltac same_run_steps :=
  repeat (apply same_run_bind;
          [first [apply same_run_fdiv | apply same_run_eval; same_view] | intros ?]).

Lemma same_run_add_T1 g i j : same_run (add_T1 g i j).
Proof. unfold add_T1. same_run_steps. apply same_run_set_H_new. Qed.

Lemma same_run_sub_T2 w d i j : same_run (sub_T2 w d i j).
Proof. unfold sub_T2. same_run_steps. apply same_run_set_H_new. Qed.

Lemma same_run_bfgs_loops : same_run bfgs_loops.
Proof.
  unfold bfgs_loops, for_range. same_run_steps.
  apply same_run_bind.
  - apply same_run_for_in. intros i. apply same_run_for_in. intros j.
    apply same_run_add_T1.
  - intros _. same_run_steps.
    apply same_run_for_in. intros i. apply same_run_for_in. intros j.
    apply same_run_sub_T2.
Qed.

(** C7. Two runs of the update from stores with the same [Nintco], [H], [dq]
    and [dg] end the same way (both without an exception, or both with the
    same one) and leave the same [H_new], whatever else the two stores
    hold. *)
Theorem update_bfgs_deterministic (s1 s2 : store) :
  Nintco s1 = Nintco s2 -> H s1 = H s2 -> dq s1 = dq s2 -> dg s1 = dg s2 ->
  snd (update_bfgs s1) = snd (update_bfgs s2) /\
  H_new (fst (update_bfgs s1)) = H_new (fst (update_bfgs s2)).
Proof.
  intros EN EH Eq Eg. unfold update_bfgs. rewrite !run_bind.
  unfold alloc_H_new, modify at 1 3.
  destruct (same_run_bfgs_loops
              (set_H_new (zeros2 (Nintco s1) (Nintco s1)) s1)
              (set_H_new (zeros2 (Nintco s2) (Nintco s2)) s2)) as [Hr Hv].
  { unfold view. simpl. congruence. }
  split; [exact Hr|].
  unfold view in Hv. injection Hv. auto.
Qed.

Lemma update_bfgs_deterministic_witness :
  (Nintco tiny_step = Nintco tiny_step_later /\ H tiny_step = H tiny_step_later /\
   dq tiny_step = dq tiny_step_later /\ dg tiny_step = dg tiny_step_later) /\
  snd (update_bfgs tiny_step) = snd (update_bfgs tiny_step_later) /\
  H_new (fst (update_bfgs tiny_step)) = H_new (fst (update_bfgs tiny_step_later)).
Proof.
  split; [repeat split|].
  apply (update_bfgs_deterministic tiny_step tiny_step_later); reflexivity.
Defined.

(** *** Forces and gradients *)

Lemma zipsub_neg (f1 f2 : vec) : zipsub f1 f2 = zipsub (np_neg f2) (np_neg f1).
Proof.
  unfold zipsub, np_neg. revert f2.
  induction f1 as [|x f1 IH]; intros [|y f2]; simpl; try reflexivity.
  now rewrite (float_sub_opp x y), IH.
Qed.

Lemma np_sub_neg (f1 f2 : vec) : np_sub f1 f2 = np_sub (np_neg f2) (np_neg f1).
Proof.
  assert (Hlen : forall f : vec, length (np_neg f) = length f)
    by (intros f; apply length_map).
  unfold np_sub. rewrite !Hlen, (zipsub_neg f1 f2).
  rewrite (Nat.eqb_sym (length f2) (length f1)).
  destruct (Nat.eqb (length f1) (length f2)) eqn:E; [reflexivity|].
  unfold np_neg.
  destruct f1 as [|x [|x' f1]], f2 as [|y [|y' f2]];
    try discriminate E; try reflexivity; cbn [map];
    f_equal; rewrite ?map_map; cbn [map];
    rewrite ?(float_sub_opp x y), ?(float_sub_opp x y'), ?(float_sub_opp x' y);
    f_equal; try f_equal; apply map_ext; intros z; apply float_sub_opp.
Qed.

Lemma bind_ext {A B} (m1 m2 : M A) (f1 f2 : A -> M B) (s : store) :
  m1 s = m2 s -> (forall a t, f1 a t = f2 a t) -> (m1 ≫= f1) s = (m2 ≫= f2) s.
Proof.
  intros Em Ef. rewrite !run_bind, Em.
  destruct (m2 s) as [t [a|e]]; [apply Ef|reflexivity].
Qed.

(** C8. For forces [f1] (previous point) and [f2] (current point), with the
    gradients [g1 = -f1] and [g2 = -f2], the array [f1 - f2] the cell stores
    in [dg] is [g2 - g1], entry by entry the same binary64 numbers (and the
    same exception when the shapes do not fit); so the cell run on the
    forces is the cell run on the gradients. *)
Theorem dg_is_gradient_displacement :
  (forall f1 f2 : vec,
     np_sub f1 f2 = gradient_displacement (np_neg f1) (np_neg f2)) /\
  (forall s : store, displacements s = displacements_of_gradients s).
Proof.
  split.
  - intros f1 f2. apply np_sub_neg.
  - intros s. unfold displacements, displacements_of_gradients.
    apply bind_ext; [reflexivity|]. intros _ t1.
    apply bind_ext; [reflexivity|]. intros d1 t2.
    apply bind_ext; [reflexivity|]. intros v1 t3.
    apply bind_ext; [reflexivity|]. intros _ t4.
    apply bind_ext; [|reflexivity].
    unfold eval, gradient_displacement. f_equal. apply np_sub_neg.
Qed.

(** ** The update on concrete arrays *)

Example water_like_denominators :
  gq water_like = 0.40625%float /\ dqHdq water_like = 0.3828125%float.
Proof. split; vm_compute; reflexivity. Qed.

Lemma water_like_symmetric i j :
  i < Nintco water_like -> j < Nintco water_like ->
  getitem2 (H water_like) i j = getitem2 (H water_like) j i.
Proof.
  simpl. intros Hi Hj.
  destruct i as [|[|[|i]]]; destruct j as [|[|[|j]]]; try reflexivity; lia.
Qed.

Lemma update_bfgs_formula_witness :
  well_shaped water_like = true /\
  is_zero (gq water_like) = false /\ is_zero (dqHdq water_like) = false /\
  exists s', update_bfgs water_like = (s', Ok tt) /\
    ncols (H_new s') = 3 /\ nrows (H_new s') = 3.
Proof.
  assert (Hs : well_shaped water_like = true) by reflexivity.
  assert (Hg : is_zero (gq water_like) = false) by (vm_compute; reflexivity).
  assert (Hd : is_zero (dqHdq water_like) = false) by (vm_compute; reflexivity).
  repeat (split; [assumption|]).
  destruct (update_bfgs_formula water_like Hs Hg Hd)
    as (_ & _ & _ & s' & Hrun & Hc & Hr & _).
  exists s'. auto.
Defined.

Lemma update_bfgs_symmetric_witness :
  well_shaped water_like = true /\
  is_zero (gq water_like) = false /\ is_zero (dqHdq water_like) = false /\
  exists s', update_bfgs water_like = (s', Ok tt) /\
    forall i j, i < 3 -> j < 3 ->
      exists x y, getitem2 (H_new s') i j = Ok x /\ getitem2 (H_new s') j i = Ok y /\
        x = y /\ (is_nan x = false -> (x =? y)%float = true).
Proof.
  assert (Hs : well_shaped water_like = true) by reflexivity.
  assert (Hg : is_zero (gq water_like) = false) by (vm_compute; reflexivity).
  assert (Hd : is_zero (dqHdq water_like) = false) by (vm_compute; reflexivity).
  repeat (split; [assumption|]).
  exact (update_bfgs_symmetric water_like Hs water_like_symmetric Hg Hd).
Defined.

Lemma update_bfgs_divisors_witness :
  well_shaped water_like = true /\
  is_zero (gq water_like) = false /\ is_zero (dqHdq water_like) = false /\
  exists s', update_bfgs water_like = (s', Ok tt) /\
    exists ds, divisors s' = divisors water_like ++ ds /\
      ds = replicate 9 (gq water_like) ++ replicate 9 (dqHdq water_like) /\
      Forall (fun d => (d = gq water_like \/ d = dqHdq water_like)
                       /\ is_zero d = false) ds.
Proof.
  assert (Hs : well_shaped water_like = true) by reflexivity.
  assert (Hg : is_zero (gq water_like) = false) by (vm_compute; reflexivity).
  assert (Hd : is_zero (dqHdq water_like) = false) by (vm_compute; reflexivity).
  repeat (split; [assumption|]).
  exact (update_bfgs_divisors water_like Hs Hg Hd).
Defined.

(** ** The update within the cell *)

Ltac run_displacements s :=
  unfold displacements, mbind, M_bind, bind, modify, eval; simpl;
  destruct (np_sub (q_2 s) (q_1 s)); [|reflexivity];
  destruct (assign_all (dq s) _); [|reflexivity]; simpl;
  destruct (np_sub (f_q1 s) (f_q2 s)); [|reflexivity];
  destruct (assign_all (zeros (Nintco s)) _); reflexivity.

Lemma displacements_set_H_new (M' : ndarray2) (s : store) :
  displacements (set_H_new M' s)
  = (set_H_new M' (fst (displacements s)), snd (displacements s)).
Proof. run_displacements s. Qed.

Lemma displacements_Nintco (s : store) : Nintco (fst (displacements s)) = Nintco s.
Proof. run_displacements s. Qed.

(** When the displacements are formed without an exception, the cell is the
    update run on the [dq] and [dg] they leave. *)
Lemma cell_update_bfgs (s s1 : store) :
  displacements s = (s1, Ok tt) -> cell s = update_bfgs s1.
Proof.
  intros E. pose proof (displacements_Nintco s) as EN.
  rewrite E in EN. simpl in EN.
  unfold cell, update_bfgs. rewrite !(run_bind alloc_H_new).
  unfold alloc_H_new. cbv [modify]. rewrite run_bind.
  rewrite displacements_set_H_new, E. simpl. now rewrite EN.
Qed.

(** On [two_points] the cell overwrites the step held in [dq] by [q_2 - q_1],
    forms the [dq] and [dg] of [water_like], and leaves the [H_new] the
    update leaves on [water_like]. *)
Example cell_two_points :
  let s' := fst (cell two_points) in
  snd (cell two_points) = Ok tt /\
  dq two_points = [0.625; 0.5; 0.25]%float /\ dq s' = dq water_like /\
  dg s' = dg water_like /\ H s' = H two_points /\
  H_new s' = H_new (fst (update_bfgs water_like)).
Proof. vm_compute. repeat split. Qed.

(** ** How the update ends *)

Lemma getitem_Ok_lt (v : vec) i x : getitem v i = Ok x -> i < length v.
Proof. intros E%getitem_Ok. eapply lookup_lt_Some; eauto. Qed.

Lemma getitem2_Ok_lt (M' : ndarray2) i j x :
  getitem2 M' i j = Ok x -> i < nrows M' /\ j < ncols M'.
Proof.
  unfold getitem2. destruct (Nat.ltb j (ncols M')) eqn:Hj; [|discriminate].
  destruct (rowsof M' !! i) as [r|] eqn:Hr; [|discriminate]. intros _.
  split; [eapply lookup_lt_Some; eauto | now apply Nat.ltb_lt].
Qed.

Lemma getitem_raises (v : vec) i e : getitem v i = Raise e -> e = IndexError.
Proof. unfold getitem. destruct (v !! i); congruence. Qed.

Lemma getitem2_raises (M' : ndarray2) i j e :
  getitem2 M' i j = Raise e -> e = IndexError.
Proof.
  unfold getitem2. destruct (Nat.ltb j (ncols M')); [|congruence].
  destruct (rowsof M' !! i); [apply getitem_raises|congruence].
Qed.

Lemma setitem2_raises (M' : ndarray2) i j x e :
  setitem2 M' i j x = Raise e -> e = IndexError.
Proof.
  unfold setitem2. destruct (Nat.ltb j (ncols M')); [|congruence].
  destruct (rowsof M' !! i); congruence.
Qed.

(** *** Which exception *)

Lemma only_raises_ret {A} e0 (a : A) : only_raises e0 (mret a).
Proof. intros s s' e E. discriminate E. Qed.

Lemma only_raises_bind {A B} e0 (m : M A) (f : A -> M B) :
  only_raises e0 m -> (forall a, only_raises e0 (f a)) -> only_raises e0 (m ≫= f).
Proof.
  intros Hm Hf s s' e. rewrite run_bind.
  destruct (m s) as [s1 [a|e1]] eqn:E.
  - apply Hf.
  - intros E'. injection E' as _ <-. eapply Hm; eauto.
Qed.

Lemma only_raises_eval {A} e0 (ex : store -> result A) :
  (forall s e, ex s = Raise e -> e = e0) -> only_raises e0 (eval ex).
Proof. intros Hex s s' e E. injection E as _ E. eapply Hex; eauto. Qed.

Lemma only_raises_fdiv e0 x y : only_raises e0 (fdiv x y).
Proof. intros s s' e E. discriminate E. Qed.

Lemma only_raises_modify e0 (f : store -> store) : only_raises e0 (modify f).
Proof. intros s s' e E. discriminate E. Qed.

Lemma only_raises_for_in e0 (l : list nat) (body : nat -> M unit) :
  (forall i, only_raises e0 (body i)) -> only_raises e0 (for_in l body).
Proof.
  intros Hb. induction l as [|i l IH]; simpl.
  - apply only_raises_ret.
  - apply only_raises_bind; [apply Hb | intros _; apply IH].
Qed.

Lemma add_T1_raises g i j : only_raises IndexError (add_T1 g i j).
Proof.
  unfold add_T1.
  repeat (apply only_raises_bind;
          [first [apply only_raises_fdiv
                 | apply only_raises_eval; intros s e;
                   first [apply getitem2_raises | apply getitem_raises
                         | apply setitem2_raises]]
          | intros ?]).
  apply only_raises_modify.
Qed.

(** *** Every iteration of a loop that ended has ended *)

Lemma for_in_Ok_each (l : list nat) (body : nat -> M unit) (s s' : store) :
  (forall i, keeps (body i)) ->
  for_in l body s = (s', Ok tt) ->
  forall i, i ∈ l ->
    exists si si', inputs si = inputs s /\ body i si = (si', Ok tt).
Proof.
  intros Hk. revert s. induction l as [|k l IH]; intros s Hrun i Hi.
  - inversion Hi.
  - simpl in Hrun. apply bind_Ok_inv in Hrun as ([] & s1 & E1 & Hrun).
    apply elem_of_cons in Hi as [->|Hi].
    + exists s, s1. split; [reflexivity|exact E1].
    + destruct (IH s1 Hrun i Hi) as (si & si' & Hin & E).
      exists si, si'. split; [|exact E].
      rewrite Hin. pose proof (Hk k s) as Hks. rewrite E1 in Hks. exact Hks.
Qed.

(** The first pair of loops cannot end without an exception unless [n] is
    within [H] and [dg]. *)
Lemma first_loops_Ok_bounds g n (s s' : store) :
  for_range n (fun i => for_range n (fun j => add_T1 g i j)) s = (s', Ok tt) ->
  n <= nrows (H s) /\ n <= ncols (H s) /\ n <= length (dg s).
Proof.
  intros Hrun. destruct n as [|n]; [lia|].
  assert (Hn : n ∈ seq 0 (S n)) by (apply elem_of_seq; lia).
  unfold for_range in Hrun at 1.
  destruct (for_in_Ok_each _ _ _ _
              (fun i => keeps_for_in _ _ (fun j => keeps_add_T1 g i j))
              Hrun n Hn) as (si & si' & Hin & Ei).
  unfold for_range in Ei.
  destruct (for_in_Ok_each _ _ _ _ (fun j => keeps_add_T1 g n j) Ei n Hn)
    as (sj & sj' & Hin' & Ej).
  rewrite Hin in Hin'. apply inputs_inv in Hin' as (_ & EH & _ & Edg).
  unfold add_T1 in Ej.
  apply bind_Ok_inv in Ej as (h & t1 & E1 & Ej).
  injection E1 as <- E1. apply getitem2_Ok_lt in E1 as [? ?].
  apply bind_Ok_inv in Ej as (a & t2 & E2 & _).
  injection E2 as <- E2. apply getitem_Ok_lt in E2.
  rewrite EH, Edg in *. lia.
Qed.

(** *** The two pairs of loops, on arrays at least as large as their bound *)

Lemma add_T1_loose s0 n i j s old :
  wf2 (H s0) = true ->
  n <= nrows (H s0) -> n <= ncols (H s0) -> n <= length (dg s0) ->
  i < n -> j < n -> inputs s = inputs s0 ->
  ncols (H_new s) = n -> nrows (H_new s) = n -> wf2 (H_new s) = true ->
  getitem2 (H_new s) i j = Ok old ->
  exists M', setitem2 (H_new s) i j (with_T1 s0 i j) = Ok M' /\
             add_T1 (gq s0) i j s = (set_H_new M' (log_divisor (gq s0) s), Ok tt).
Proof.
  intros HwfH HrH HcH Hldg Hi Hj Hin Hc Hr Hwf _.
  apply inputs_inv in Hin as (_ & EH & _ & Edg).
  destruct (getitem2_lt (H s0) i j) as [h Hh]; try lia; try assumption.
  destruct (getitem_lt (dg s0) i) as [a Ha]; [lia|].
  destruct (getitem_lt (dg s0) j) as [b Hb]; [lia|].
  destruct (setitem2_lt (H_new s) i j (with_T1 s0 i j)) as [M' HM']; [lia|lia|].
  exists M'. split; [exact HM'|].
  unfold add_T1. rewrite run_bind. unfold eval at 1. rewrite EH, Hh.
  rewrite run_bind. unfold eval at 1. rewrite Edg, Ha.
  rewrite run_bind. unfold eval at 1. rewrite Edg, Hb.
  rewrite run_bind. unfold fdiv at 1.
  rewrite run_bind. unfold eval at 1. simpl H_new.
  unfold with_T1 in HM'.
  rewrite (at2_getitem2 _ _ _ _ Hh), (at1_getitem _ _ _ Ha), (at1_getitem _ _ _ Hb) in HM'.
  rewrite HM'. reflexivity.
Qed.

Lemma sub_T2_loose (w : vec) (d : float) n i j s old :
  n <= length w -> i < n -> j < n ->
  ncols (H_new s) = n -> nrows (H_new s) = n -> wf2 (H_new s) = true ->
  getitem2 (H_new s) i j = Ok old ->
  exists M', setitem2 (H_new s) i j (old - at1 w i * at1 w j / d)%float = Ok M' /\
             sub_T2 w d i j s = (set_H_new M' (log_divisor d s), Ok tt).
Proof.
  intros Hw Hi Hj Hc Hr Hwf Hold.
  destruct (getitem_lt w i) as [a Ha]; [lia|].
  destruct (getitem_lt w j) as [b Hb]; [lia|].
  destruct (setitem2_lt (H_new s) i j (old - at1 w i * at1 w j / d)%float)
    as [M' HM']; [lia|lia|].
  exists M'. split; [exact HM'|].
  unfold sub_T2. rewrite run_bind. unfold eval at 1. rewrite Hold.
  rewrite run_bind. unfold eval at 1. rewrite Ha.
  rewrite run_bind. unfold eval at 1. rewrite Hb.
  rewrite run_bind. unfold fdiv at 1.
  rewrite run_bind. unfold eval at 1. simpl H_new.
  rewrite (at1_getitem _ _ _ Ha), (at1_getitem _ _ _ Hb) in HM'.
  rewrite HM'. reflexivity.
Qed.

Lemma first_loops_run s0 n :
  wf2 (H s0) = true ->
  n <= nrows (H s0) -> n <= ncols (H s0) -> n <= length (dg s0) ->
  H_new_shaped n s0 ->
  exists s1,
    for_range n (fun i => for_range n (fun j => add_T1 (gq s0) i j)) s0 = (s1, Ok tt) /\
    fill_inv n (fun i j _ => with_T1 s0 i j) (gq s0) s0 n 0 s1.
Proof.
  intros HwfH HrH HcH Hldg Hsh.
  destruct (fill_loops n (add_T1 (gq s0)) (fun i j _ => with_T1 s0 i j) (gq s0) s0 Hsh
              (fun i j s old Hi Hj Hin =>
                 add_T1_loose s0 n i j s old HwfH HrH HcH Hldg Hi Hj Hin)
              s0)
    as ([] & s1 & E1 & HI).
  { apply fill_inv_start. exact Hsh. }
  eauto.
Qed.

Lemma second_loops_run (w : vec) (d : float) s1 n :
  n <= length w -> H_new_shaped n s1 ->
  exists s2,
    for_range n (fun i => for_range n (fun j => sub_T2 w d i j)) s1 = (s2, Ok tt) /\
    fill_inv n (fun i j old => (old - at1 w i * at1 w j / d)%float) d s1 n 0 s2.
Proof.
  intros Hw Hsh.
  destruct (fill_loops n (sub_T2 w d)
              (fun i j old => (old - at1 w i * at1 w j / d)%float) d s1 Hsh
              (fun i j s old Hi Hj _ => sub_T2_loose w d n i j s old Hw Hi Hj)
              s1)
    as ([] & s2 & E2 & HI).
  { apply fill_inv_start. exact Hsh. }
  eauto.
Qed.

Lemma alloc_shaped s :
  H_new_shaped (Nintco s) (set_H_new (zeros2 (Nintco s) (Nintco s)) s).
Proof. apply zeros2_shape. Qed.

Lemma fits_inv s :
  fits s = true ->
  wf2 (H s) = true /\ nrows (H s) = ncols (H s) /\ length (dq s) = nrows (H s) /\
  length (dg s) = nrows (H s) /\ Nintco s <= nrows (H s).
Proof.
  unfold fits. rewrite !andb_true_iff, !Nat.eqb_eq, Nat.leb_le. tauto.
Qed.

(** The loops and the update on the shapes of [fits]. *)
Lemma bfgs_loops_run s0 :
  fits s0 = true -> H_new_shaped (Nintco s0) s0 ->
  exists s', bfgs_loops s0 = (s', Ok tt) /\ inputs s' = inputs s0 /\
    H_new_shaped (Nintco s0) s' /\
    divisors s' = divisors s0 ++ replicate (Nintco s0 * Nintco s0) (gq s0)
                              ++ replicate (Nintco s0 * Nintco s0) (dqHdq s0) /\
    forall i j, i < Nintco s0 -> j < Nintco s0 ->
      getitem2 (H_new s') i j = Ok (less_T2 s0 i j (with_T1 s0 i j)).
Proof.
  intros (HwfH & Hsq & Hldq & Hldg & Hn)%fits_inv Hsh.
  set (n := Nintco s0) in *.
  unfold bfgs_loops.
  rewrite run_bind. unfold eval at 1.
  rewrite dot_Ok by congruence. fold (gq s0).
  rewrite run_bind. unfold eval at 1. fold n.
  rewrite run_bind.
  destruct (first_loops_run s0 n) as (s1 & E1 & Hin1 & Hc1 & Hr1 & Hwf1 & Hd1 & He1);
    try assumption; try lia.
  rewrite E1.
  pose proof (inputs_inv _ _ Hin1) as (EN & EH & Edq & Edg).
  rewrite run_bind. unfold eval at 1. unfold dot21.
  rewrite EH, Edq.
  replace (Nat.eqb (ncols (H s0)) (length (dq s0))) with true
    by (symmetry; apply Nat.eqb_eq; congruence).
  fold (Hdq s0).
  rewrite run_bind. unfold eval at 1.
  rewrite Edq, dot_Ok by (rewrite length_Hdq; congruence). fold (dqHdq s0).
  destruct (second_loops_run (Hdq s0) (dqHdq s0) s1 n)
    as (s2 & E2 & Hin2 & Hc2 & Hr2 & Hwf2 & Hd2 & He2).
  { rewrite length_Hdq. lia. }
  { repeat split; assumption. }
  exists s2. split; [exact E2|].
  destruct Hsh as (Hc0 & Hr0 & Hwf0).
  split; [congruence|]. split; [repeat split; assumption|]. split.
  - rewrite Hd2, Hd1, <- app_assoc. now rewrite !Nat.add_0_r.
  - intros i j Hi Hj.
    destruct (getitem2_lt (H_new s0) i j) as [old Hold]; try lia; try assumption.
    pose proof (He1 i j old Hi Hj Hold) as E. rewrite decide_True in E by lia.
    rewrite (He2 i j _ Hi Hj E). rewrite decide_True by lia. reflexivity.
Qed.

Lemma update_bfgs_run s :
  fits s = true ->
  exists s', update_bfgs s = (s', Ok tt) /\ inputs s' = inputs s /\
    H_new_shaped (Nintco s) s' /\
    divisors s' = divisors s ++ replicate (Nintco s * Nintco s) (gq s)
                             ++ replicate (Nintco s * Nintco s) (dqHdq s) /\
    forall i j, i < Nintco s -> j < Nintco s ->
      getitem2 (H_new s') i j = Ok (less_T2 s i j (with_T1 s i j)).
Proof.
  intros Hs. unfold update_bfgs. rewrite run_bind. unfold alloc_H_new. cbv [modify].
  apply (bfgs_loops_run (set_H_new (zeros2 (Nintco s) (Nintco s)) s));
    [exact Hs | exact (alloc_shaped s)].
Qed.

Lemma update_bfgs_snd (s : store) :
  wf2 (H s) = true -> snd (update_bfgs s) = update_outcome s.
Proof.
  intros HwfH. unfold update_outcome.
  destruct (Nat.eqb (length (dq s)) (length (dg s))) eqn:E1; simpl.
  2:{ unfold update_bfgs, bfgs_loops. rewrite run_bind. unfold alloc_H_new.
      cbv [modify]. rewrite run_bind. unfold eval at 1. simpl.
      unfold dot. now rewrite E1. }
  apply Nat.eqb_eq in E1.
  destruct (Nat.leb (Nintco s) (nrows (H s)) && Nat.leb (Nintco s) (ncols (H s))
            && Nat.leb (Nintco s) (length (dg s))) eqn:E2; simpl.
  2:{ unfold update_bfgs, bfgs_loops. rewrite run_bind. unfold alloc_H_new.
      cbv [modify]. rewrite run_bind. unfold eval at 1. simpl.
      rewrite dot_Ok by assumption.
      rewrite run_bind. unfold eval at 1. simpl.
      rewrite run_bind.
      destruct (for_range (Nintco s) _ _) as [s1 [[]|e]] eqn:Eloops.
      - apply first_loops_Ok_bounds in Eloops. simpl in Eloops.
        rewrite !andb_false_iff, !Nat.leb_gt in E2. lia.
      - simpl. f_equal. revert Eloops. unfold for_range at 1.
        apply only_raises_for_in. intros i. apply only_raises_for_in.
        intros j. apply add_T1_raises. }
  rewrite !andb_true_iff, !Nat.leb_le in E2. destruct E2 as [[HrH HcH] Hldg].
  unfold update_bfgs. rewrite run_bind. unfold alloc_H_new. cbv [modify].
  set (s0 := set_H_new (zeros2 (Nintco s) (Nintco s)) s).
  unfold bfgs_loops. rewrite run_bind. unfold eval at 1.
  change (dq s0) with (dq s). change (dg s0) with (dg s).
  rewrite dot_Ok by assumption.
  rewrite run_bind. unfold eval at 1. change (Nintco s0) with (Nintco s).
  rewrite run_bind.
  destruct (first_loops_run s0 (Nintco s)) as (s1 & Eloops & Hin1 & Hsh1);
    try assumption; [exact (alloc_shaped s)|].
  change (gq s0) with (sumprod (dq s) (dg s)) in Eloops. rewrite Eloops.
  apply inputs_inv in Hin1 as (EN & EH & Edq & Edg).
  change (H s0) with (H s) in EH. change (dq s0) with (dq s) in Edq.
  rewrite run_bind. unfold eval at 1. unfold dot21. rewrite EH, Edq.
  destruct (Nat.eqb (ncols (H s)) (length (dq s))) eqn:E3; simpl; [|reflexivity].
  rewrite run_bind. unfold eval at 1. unfold dot. rewrite Edq, length_map.
  fold (nrows (H s)).
  destruct (Nat.eqb (length (dq s)) (nrows (H s))) eqn:E4; simpl; [|reflexivity].
  apply Nat.eqb_eq in E3, E4.
  destruct (second_loops_run (map (fun r => sumprod r (dq s)) (rowsof (H s)))
              (sumprod (dq s) (map (fun r => sumprod r (dq s)) (rowsof (H s))))
              s1 (Nintco s)) as (s2 & E2 & _).
  { rewrite length_map. exact HrH. }
  { destruct Hsh1 as (? & ? & ? & _). repeat split; assumption. }
  rewrite E2. reflexivity.
Qed.

(** X1. For a rectangular [H], how the update ends is decided by the shapes
    alone, as [update_outcome] tells: [ValueError] when [dq] and [dg] differ
    in length; else [IndexError] when [Nintco] exceeds the rows or columns of
    [H] or the length of [dg]; else [ValueError] when [H] has not as many
    columns, or not as many rows, as [dq] has entries; else no exception.
    So it ends without an exception exactly when [H] is square, [dq] and
    [dg] have as many entries as [H] has rows, and [Nintco] is at most that
    number. *)
Theorem update_bfgs_ends (s : store) :
  wf2 (H s) = true ->
  snd (update_bfgs s) = update_outcome s /\
  (snd (update_bfgs s) = Ok tt <-> fits s = true).
Proof.
  intros HwfH. rewrite (update_bfgs_snd s HwfH). split; [reflexivity|].
  unfold update_outcome, fits. rewrite HwfH. simpl.
  destruct (Nat.eqb (length (dq s)) (length (dg s))) eqn:E1;
  destruct (Nat.leb (Nintco s) (nrows (H s))) eqn:E2;
  destruct (Nat.leb (Nintco s) (ncols (H s))) eqn:E3;
  destruct (Nat.leb (Nintco s) (length (dg s))) eqn:E4;
  destruct (Nat.eqb (ncols (H s)) (length (dq s))) eqn:E5;
  destruct (Nat.eqb (length (dq s)) (nrows (H s))) eqn:E6;
  destruct (Nat.eqb (nrows (H s)) (ncols (H s))) eqn:E7;
  destruct (Nat.eqb (length (dg s)) (nrows (H s))) eqn:E8;
  simpl; split; intros Hx; try discriminate Hx; try reflexivity; exfalso;
  rewrite ?Nat.eqb_eq, ?Nat.eqb_neq, ?Nat.leb_le, ?Nat.leb_gt in *; lia.
Qed.

Lemma update_bfgs_ends_witness :
  wf2 (H wide_H) = true /\
  (snd (update_bfgs wide_H) = update_outcome wide_H /\
   (snd (update_bfgs wide_H) = Ok tt <-> fits wide_H = true)) /\
  update_outcome wide_H = Raise ValueError.
Proof.
  assert (Hwf : wf2 (H wide_H) = true) by reflexivity.
  split; [exact Hwf|]. split; [exact (update_bfgs_ends wide_H Hwf)|reflexivity].
Defined.

(** X2. When [dq] and [dg] differ in length, the update stops at once on the
    [ValueError] of [np.dot(dq, dg)]: [H_new] is allocated, all zeros, and
    nothing else has been done. *)
Theorem update_bfgs_dot_mismatch (s : store) :
  length (dq s) <> length (dg s) ->
  update_bfgs s = (set_H_new (zeros2 (Nintco s) (Nintco s)) s, Raise ValueError).
Proof.
  intros Hne. apply Nat.eqb_neq in Hne.
  unfold update_bfgs, bfgs_loops. rewrite run_bind. unfold alloc_H_new.
  cbv [modify]. rewrite run_bind. unfold eval at 1. simpl.
  unfold dot. now rewrite Hne.
Qed.

Lemma update_bfgs_dot_mismatch_witness :
  length (dq (inputs_only 2 (zeros2 2 2) [1; 2; 3]%float [1; 2]%float))
  <> length (dg (inputs_only 2 (zeros2 2 2) [1; 2; 3]%float [1; 2]%float)) /\
  update_bfgs (inputs_only 2 (zeros2 2 2) [1; 2; 3]%float [1; 2]%float)
  = (set_H_new (zeros2 2 2)
       (inputs_only 2 (zeros2 2 2) [1; 2; 3]%float [1; 2]%float),
     Raise ValueError).
Proof.
  assert (Hne : length (dq (inputs_only 2 (zeros2 2 2) [1; 2; 3]%float [1; 2]%float))
                <> length (dg (inputs_only 2 (zeros2 2 2) [1; 2; 3]%float [1; 2]%float)))
    by (simpl; lia).
  split; [exact Hne|].
  exact (update_bfgs_dot_mismatch _ Hne).
Defined.

(** X3. When [dq] and [dg] have the same length and [Nintco] is within [H]
    and [dg], but [H] has not as many columns, or not as many rows, as [dq]
    has entries, the [ValueError] comes after the first pair of loops: by then
    [Nintco * Nintco] divisions by [gq] are done and [H_new[i,j]] holds
    [H[i,j] + dg[i]*dg[j]/gq] for all [i], [j] below [Nintco]; [H], [dq] and
    [dg] are as they were. *)
Theorem update_bfgs_stops_midway (s : store) :
  wf2 (H s) = true -> length (dq s) = length (dg s) ->
  Nintco s <= nrows (H s) -> Nintco s <= ncols (H s) -> Nintco s <= length (dg s) ->
  ncols (H s) <> length (dq s) \/ length (dq s) <> nrows (H s) ->
  exists s', update_bfgs s = (s', Raise ValueError) /\
    H s' = H s /\ dq s' = dq s /\ dg s' = dg s /\
    divisors s' = divisors s ++ replicate (Nintco s * Nintco s) (gq s) /\
    forall i j, i < Nintco s -> j < Nintco s ->
      exists h a b,
        getitem2 (H s) i j = Ok h /\
        getitem (dg s) i = Ok a /\ getitem (dg s) j = Ok b /\
        getitem2 (H_new s') i j = Ok (h + a * b / gq s)%float.
Proof.
  intros HwfH Hlen HrH HcH Hldg Hbad.
  unfold update_bfgs. rewrite run_bind. unfold alloc_H_new. cbv [modify].
  set (s0 := set_H_new (zeros2 (Nintco s) (Nintco s)) s).
  pose proof (alloc_shaped s) as Hsh0. fold s0 in Hsh0.
  unfold bfgs_loops. rewrite run_bind. unfold eval at 1.
  change (dq s0) with (dq s). change (dg s0) with (dg s).
  rewrite dot_Ok by assumption.
  rewrite run_bind. unfold eval at 1. change (Nintco s0) with (Nintco s).
  rewrite run_bind.
  destruct (first_loops_run s0 (Nintco s))
    as (s1 & Eloops & Hin1 & Hc1 & Hr1 & Hwf1 & Hd1 & He1); try assumption.
  change (gq s0) with (sumprod (dq s) (dg s)) in Eloops. rewrite Eloops.
  pose proof (inputs_inv _ _ Hin1) as (EN & EH & Edq & Edg).
  change (H s0) with (H s) in EH. change (dq s0) with (dq s) in Edq.
  change (dg s0) with (dg s) in Edg.
  assert (Hstop :
    (Hdq ← eval (fun s => dot21 (H s) (dq s));
     dqHdq ← eval (fun s => dot (dq s) Hdq);
     for_range (Nintco s) (fun i => for_range (Nintco s)
                                      (fun j => sub_T2 Hdq dqHdq i j))) s1
    = (s1, Raise ValueError)).
  { rewrite run_bind. unfold eval at 1. unfold dot21. rewrite EH, Edq.
    destruct (Nat.eqb (ncols (H s)) (length (dq s))) eqn:E3; [|reflexivity].
    rewrite run_bind. unfold eval at 1. unfold dot. rewrite Edq, length_map.
    fold (nrows (H s)).
    destruct (Nat.eqb (length (dq s)) (nrows (H s))) eqn:E4; [|reflexivity].
    apply Nat.eqb_eq in E3, E4. exfalso. destruct Hbad; congruence. }
  rewrite Hstop. exists s1. split; [reflexivity|].
  repeat (split; [assumption|]). split.
  - rewrite Hd1. now rewrite Nat.add_0_r.
  - intros i j Hi Hj.
    destruct (getitem2_lt (H s) i j) as [h Hh]; try lia; try assumption.
    destruct (getitem_lt (dg s) i) as [a Ha]; [lia|].
    destruct (getitem_lt (dg s) j) as [b Hb]; [lia|].
    exists h, a, b. repeat (split; [assumption|]).
    destruct Hsh0 as (Hc0 & Hr0 & Hwf0).
    destruct (getitem2_lt (H_new s0) i j) as [old Hold]; try lia; try assumption.
    rewrite (He1 i j old Hi Hj Hold). rewrite decide_True by lia.
    unfold with_T1. change (H s0) with (H s). change (dg s0) with (dg s).
    change (gq s0) with (gq s).
    now rewrite (at2_getitem2 _ _ _ _ Hh), (at1_getitem _ _ _ Ha),
      (at1_getitem _ _ _ Hb).
Qed.

Lemma update_bfgs_stops_midway_witness :
  (wf2 (H wide_H) = true /\ length (dq wide_H) = length (dg wide_H) /\
   Nintco wide_H <= nrows (H wide_H) /\ Nintco wide_H <= ncols (H wide_H) /\
   Nintco wide_H <= length (dg wide_H) /\
   (ncols (H wide_H) <> length (dq wide_H) \/
    length (dq wide_H) <> nrows (H wide_H))) /\
  exists s', update_bfgs wide_H = (s', Raise ValueError) /\
    H s' = H wide_H /\ dq s' = dq wide_H /\ dg s' = dg wide_H /\
    divisors s' = divisors wide_H ++ replicate 4 (gq wide_H).
Proof.
  assert (H1 : wf2 (H wide_H) = true) by reflexivity.
  assert (H2 : length (dq wide_H) = length (dg wide_H)) by reflexivity.
  assert (H3 : Nintco wide_H <= nrows (H wide_H)) by (vm_compute; lia).
  assert (H4 : Nintco wide_H <= ncols (H wide_H)) by (vm_compute; lia).
  assert (H5 : Nintco wide_H <= length (dg wide_H)) by (vm_compute; lia).
  assert (H6 : ncols (H wide_H) <> length (dq wide_H) \/
               length (dq wide_H) <> nrows (H wide_H)) by (left; vm_compute; lia).
  split; [repeat split; assumption|].
  destruct (update_bfgs_stops_midway wide_H H1 H2 H3 H4 H5 H6)
    as (s' & E & ? & ? & ? & ? & _).
  exists s'. repeat split; assumption.
Defined.

Lemma fits_reads s i j :
  fits s = true -> i < Nintco s -> j < Nintco s ->
  exists h a b x y,
    getitem2 (H s) i j = Ok h /\ getitem (dg s) i = Ok a /\ getitem (dg s) j = Ok b /\
    getitem (Hdq s) i = Ok x /\ getitem (Hdq s) j = Ok y /\
    less_T2 s i j (with_T1 s i j) = (h + a * b / gq s - x * y / dqHdq s)%float.
Proof.
  intros (HwfH & Hsq & Hldq & Hldg & Hn)%fits_inv Hi Hj.
  destruct (getitem2_lt (H s) i j) as [h Hh]; try lia; try assumption.
  destruct (getitem_lt (dg s) i) as [a Ha]; [lia|].
  destruct (getitem_lt (dg s) j) as [b Hb]; [lia|].
  destruct (getitem_lt (Hdq s) i) as [x Hx]; [rewrite length_Hdq; lia|].
  destruct (getitem_lt (Hdq s) j) as [y Hy]; [rewrite length_Hdq; lia|].
  exists h, a, b, x, y. repeat split; try assumption.
  unfold less_T2, with_T1.
  now rewrite (at2_getitem2 _ _ _ _ Hh), (at1_getitem _ _ _ Ha),
    (at1_getitem _ _ _ Hb), (at1_getitem _ _ _ Hx), (at1_getitem _ _ _ Hy).
Qed.

(** X4. The loops run to [Nintco], not to the size of the arrays: when [H] is
    [N] by [N], [dq] and [dg] have [N] entries and [Nintco <= N], the update
    ends without an exception and [H_new] is the [Nintco] by [Nintco] array
    of the leading entries [H[i,j] + dg[i]*dg[j]/gq - Hdq[i]*Hdq[j]/dqHdq],
    with [gq], [Hdq] and [dqHdq] formed from all [N] entries. *)
Theorem update_bfgs_leading_block (s : store) :
  fits s = true ->
  exists s', update_bfgs s = (s', Ok tt) /\
    ncols (H_new s') = Nintco s /\ nrows (H_new s') = Nintco s /\
    length (Hdq s) = nrows (H s) /\
    forall i j, i < Nintco s -> j < Nintco s ->
      exists h a b x y,
        getitem2 (H s) i j = Ok h /\
        getitem (dg s) i = Ok a /\ getitem (dg s) j = Ok b /\
        getitem (Hdq s) i = Ok x /\ getitem (Hdq s) j = Ok y /\
        getitem2 (H_new s') i j = Ok (h + a * b / gq s - x * y / dqHdq s)%float.
Proof.
  intros Hs.
  destruct (update_bfgs_run s Hs) as (s' & Hrun & _ & (Hc & Hr & _) & _ & He).
  exists s'. repeat (split; [assumption|]). split; [apply length_Hdq|].
  intros i j Hi Hj.
  destruct (fits_reads s i j Hs Hi Hj) as (h & a & b & x & y & ? & ? & ? & ? & ? & E).
  exists h, a, b, x, y. repeat (split; [assumption|]).
  rewrite (He i j Hi Hj). now rewrite E.
Qed.

Lemma update_bfgs_leading_block_witness :
  fits leading_block = true /\
  exists s', update_bfgs leading_block = (s', Ok tt) /\
    ncols (H_new s') = 1 /\ nrows (H_new s') = 1 /\
    length (Hdq leading_block) = 2.
Proof.
  assert (Hs : fits leading_block = true) by reflexivity.
  split; [exact Hs|].
  destruct (update_bfgs_leading_block leading_block Hs) as (s' & ? & ? & ? & ? & _).
  exists s'. repeat split; assumption.
Defined.

(** *** The shape of [H_new] *)

Lemma keeps_shape_ret {A} n (a : A) : keeps_shape n (mret a).
Proof. intros s Hsh. exact Hsh. Qed.

Lemma keeps_shape_bind {A B} n (m : M A) (f : A -> M B) :
  keeps_shape n m -> (forall a, keeps_shape n (f a)) -> keeps_shape n (m ≫= f).
Proof.
  intros Hm Hf s Hsh. rewrite run_bind. specialize (Hm s Hsh).
  destruct (m s) as [s1 [a|e]]; simpl in *; [now apply Hf|assumption].
Qed.

Lemma keeps_shape_eval {A} n (ex : store -> result A) : keeps_shape n (eval ex).
Proof. intros s Hsh. exact Hsh. Qed.

Lemma keeps_shape_fdiv n x y : keeps_shape n (fdiv x y).
Proof. intros s Hsh. exact Hsh. Qed.

Lemma keeps_shape_for_in n (l : list nat) (body : nat -> M unit) :
  (forall i, keeps_shape n (body i)) -> keeps_shape n (for_in l body).
Proof.
  intros Hb. induction l as [|i l IH]; simpl.
  - apply keeps_shape_ret.
  - apply keeps_shape_bind; [apply Hb | intros _; apply IH].
Qed.

(** [H_new[i,j] = x], as the two bodies end. *)
Lemma keeps_shape_store n i j (x : float) :
  keeps_shape n (M' ← eval (fun s => setitem2 (H_new s) i j x); modify (set_H_new M')).
Proof.
  intros s (Hc & Hr & Hwf). rewrite run_bind. unfold eval.
  destruct (setitem2 (H_new s) i j x) as [M'|e] eqn:E;
    unfold modify, H_new_shaped; simpl.
  - destruct (setitem2_shape _ _ _ _ _ E) as (Hc' & Hr' & Hwf').
    repeat split; [congruence|congruence|auto].
  - repeat split; assumption.
Qed.

Lemma keeps_shape_add_T1 n g i j : keeps_shape n (add_T1 g i j).
Proof.
  unfold add_T1.
  do 4 (apply keeps_shape_bind;
        [first [apply keeps_shape_fdiv | apply keeps_shape_eval] | intros ?]).
  apply keeps_shape_store.
Qed.

Lemma keeps_shape_sub_T2 n w d i j : keeps_shape n (sub_T2 w d i j).
Proof.
  unfold sub_T2.
  do 4 (apply keeps_shape_bind;
        [first [apply keeps_shape_fdiv | apply keeps_shape_eval] | intros ?]).
  apply keeps_shape_store.
Qed.

Lemma keeps_shape_bfgs_loops n : keeps_shape n bfgs_loops.
Proof.
  unfold bfgs_loops, for_range.
  apply keeps_shape_bind; [apply keeps_shape_eval|]. intros g.
  apply keeps_shape_bind; [apply keeps_shape_eval|]. intros k.
  apply keeps_shape_bind.
  { apply keeps_shape_for_in. intros i. apply keeps_shape_for_in. intros j.
    apply keeps_shape_add_T1. }
  intros _.
  apply keeps_shape_bind; [apply keeps_shape_eval|]. intros w.
  apply keeps_shape_bind; [apply keeps_shape_eval|]. intros d.
  apply keeps_shape_for_in. intros i. apply keeps_shape_for_in. intros j.
  apply keeps_shape_sub_T2.
Qed.

(** X5. However the update ends, with or without an exception and on any
    shapes of [H], [dq] and [dg], it leaves [H_new] a rectangular [Nintco] by
    [Nintco] array. *)
Theorem update_bfgs_shape (s : store) :
  let s' := fst (update_bfgs s) in
  ncols (H_new s') = Nintco s /\ nrows (H_new s') = Nintco s /\
  wf2 (H_new s') = true.
Proof.
  intros s'. subst s'. unfold update_bfgs. rewrite run_bind.
  unfold alloc_H_new. cbv [modify].
  apply (keeps_shape_bfgs_loops (Nintco s)
           (set_H_new (zeros2 (Nintco s) (Nintco s)) s)).
  exact (alloc_shaped s).
Qed.

(** X6. A zero denominator stops nothing: on the shapes on which the update
    ends without an exception, when [gq] or [dqHdq] is zero ([0.0] or
    [-0.0]) the update still ends without an exception, and every entry of
    the [H_new] it leaves is NaN or an infinity. *)
Theorem update_bfgs_not_finite (s : store) :
  fits s = true ->
  is_zero (gq s) = true \/ is_zero (dqHdq s) = true ->
  exists s', update_bfgs s = (s', Ok tt) /\
    forall i j, i < Nintco s -> j < Nintco s ->
      exists x, getitem2 (H_new s') i j = Ok x /\ is_finite x = false.
Proof.
  intros Hs Hz.
  destruct (update_bfgs_run s Hs) as (s' & Hrun & _ & _ & _ & He).
  exists s'. split; [assumption|].
  intros i j Hi Hj. eexists. split; [now apply He|].
  unfold less_T2, with_T1. destruct Hz as [Hz|Hz].
  - now apply sub_not_finite_l, add_not_finite, div_zero_not_finite.
  - now apply sub_not_finite_r, div_zero_not_finite.
Qed.

Lemma update_bfgs_not_finite_witness :
  fits no_step = true /\
  (is_zero (gq no_step) = true \/ is_zero (dqHdq no_step) = true) /\
  exists s', update_bfgs no_step = (s', Ok tt) /\
    forall i j, i < 3 -> j < 3 ->
      exists x, getitem2 (H_new s') i j = Ok x /\ is_finite x = false.
Proof.
  assert (Hs : fits no_step = true) by reflexivity.
  assert (Hz : is_zero (gq no_step) = true \/ is_zero (dqHdq no_step) = true)
    by (left; vm_compute; reflexivity).
  split; [exact Hs|]. split; [exact Hz|].
  exact (update_bfgs_not_finite no_step Hs Hz).
Defined.

(** ** The displacement statements *)

Lemma displacements_run (s : store) : displacements s = displacements_cases s.
Proof.
  unfold displacements, displacements_cases, mbind, M_bind, bind, modify, eval; simpl.
  destruct (np_sub (q_2 s) (q_1 s)); [|reflexivity].
  destruct (assign_all (dq s) _); [|reflexivity]; simpl.
  destruct (np_sub (f_q1 s) (f_q2 s)); [|reflexivity].
  destruct (assign_all (zeros (Nintco s)) _); reflexivity.
Qed.

Lemma length_zipsub (a b : vec) : length a = length b -> length (zipsub a b) = length a.
Proof.
  intros E. unfold zipsub. rewrite length_map, length_combine. lia.
Qed.

Lemma getitem_zipsub (a b : vec) i x y :
  getitem a i = Ok x -> getitem b i = Ok y ->
  getitem (zipsub a b) i = Ok (x - y)%float.
Proof.
  intros Ha%getitem_Ok Hb%getitem_Ok. apply getitem_Ok. unfold zipsub.
  revert b i Ha Hb. induction a as [|a0 a IH]; intros [|b0 b] [|i] Ha Hb;
    try discriminate; simpl in *.
  - congruence.
  - now apply IH.
Qed.

Lemma np_sub_shape (a b : vec) :
  match np_sub a b with
  | Ok d => sub_length (length a) (length b) = Some (length d)
  | Raise e => sub_length (length a) (length b) = None /\ e = ValueError
  end.
Proof.
  unfold np_sub, sub_length.
  destruct (Nat.eqb (length a) (length b)) eqn:E.
  - apply Nat.eqb_eq in E. now rewrite length_zipsub.
  - destruct a as [|x [|x' a]], b as [|y [|y' b]]; try discriminate E; simpl;
      rewrite ?length_map; auto.
Qed.

Lemma assign_all_shape (dst src : vec) :
  match assign_all dst src with
  | Ok v => length v = length dst /\
            (Nat.eqb (length src) (length dst) || Nat.eqb (length src) 1 = true)
  | Raise e => (Nat.eqb (length src) (length dst) || Nat.eqb (length src) 1 = false)
               /\ e = ValueError
  end.
Proof.
  unfold assign_all.
  destruct (Nat.eqb (length src) (length dst)) eqn:E.
  - apply Nat.eqb_eq in E. auto.
  - destruct src as [|x [|x' src]]; simpl; rewrite ?length_replicate; auto.
Qed.

Lemma assign_all_again (dst src v : vec) :
  assign_all dst src = Ok v -> assign_all v src = Ok v.
Proof.
  unfold assign_all.
  destruct (Nat.eqb (length src) (length dst)) eqn:E.
  - intros E'. injection E' as <-. now rewrite Nat.eqb_refl.
  - destruct src as [|x [|x' src]]; try discriminate.
    intros E'. injection E' as <-. rewrite length_replicate.
    simpl in *. now rewrite E.
Qed.

Lemma displacements_snd (s : store) :
  snd (displacements s) = displacements_outcome s.
Proof.
  rewrite displacements_run. unfold displacements_cases, displacements_outcome, assignable.
  pose proof (np_sub_shape (q_2 s) (q_1 s)) as Hq.
  destruct (np_sub (q_2 s) (q_1 s)) as [d|e]; [|destruct Hq as [-> ->]; reflexivity].
  rewrite Hq.
  pose proof (assign_all_shape (dq s) d) as Ha.
  destruct (assign_all (dq s) d) as [v|e];
    [destruct Ha as [_ ->]|destruct Ha as [-> ->]; reflexivity].
  pose proof (np_sub_shape (f_q1 s) (f_q2 s)) as Hf.
  destruct (np_sub (f_q1 s) (f_q2 s)) as [d'|e]; [|destruct Hf as [-> ->]; reflexivity].
  rewrite Hf.
  pose proof (assign_all_shape (zeros (Nintco s)) d') as Hb.
  assert (Hz : length (zeros (Nintco s)) = Nintco s) by apply length_replicate.
  rewrite Hz in Hb.
  destruct (assign_all (zeros (Nintco s)) d') as [w|e];
    [destruct Hb as [_ ->]|destruct Hb as [-> ->]]; reflexivity.
Qed.

Lemma displacements_frame (s : store) :
  let s' := fst (displacements s) in
  length (dq s') = length (dq s) /\ length (dg s') = Nintco s /\
  Nintco s' = Nintco s /\ H s' = H s /\ H_new s' = H_new s /\
  q_1 s' = q_1 s /\ q_2 s' = q_2 s /\ f_q1 s' = f_q1 s /\ f_q2 s' = f_q2 s.
Proof.
  intros s'. subst s'. rewrite displacements_run. unfold displacements_cases.
  assert (Hz : length (zeros (Nintco s)) = Nintco s) by apply length_replicate.
  destruct (np_sub (q_2 s) (q_1 s)) as [d|e]; [|simpl; auto 10].
  pose proof (assign_all_shape (dq s) d) as Ha.
  destruct (assign_all (dq s) d) as [v|e]; [destruct Ha as [Ha _]|simpl; auto 10].
  destruct (np_sub (f_q1 s) (f_q2 s)) as [d'|e]; [|simpl; auto 10].
  pose proof (assign_all_shape (zeros (Nintco s)) d') as Hb.
  destruct (assign_all (zeros (Nintco s)) d') as [w|e];
    [destruct Hb as [Hb _]|simpl; auto 10].
  simpl. rewrite Hb. auto 10.
Qed.

(** X7. The displacement statements stop on an exception exactly when the
    shapes do not fit the broadcasting of numpy, and then on [ValueError]:
    [q_2 - q_1] must be formed (equal lengths, or one array with a single
    entry) and have as many entries as [dq], or one; likewise [f_q1 - f_q2]
    and the [Nintco] entries of [dg]. *)
Theorem displacements_ends (s : store) :
  snd (displacements s) = displacements_outcome s /\
  (forall e, snd (displacements s) = Raise e -> e = ValueError).
Proof.
  rewrite displacements_snd. split; [reflexivity|].
  unfold displacements_outcome. intros e.
  destruct (_ && _); congruence.
Qed.

(** X8. However the displacement statements end, [dq] has the length it had
    (it is written in place), [dg] has [Nintco] entries, and [Nintco], [H],
    [H_new] and the arrays [q_1], [q_2], [f_q1], [f_q2] are untouched. *)
Theorem displacements_shapes (s : store) :
  let s' := fst (displacements s) in
  length (dq s') = length (dq s) /\ length (dg s') = Nintco s /\
  Nintco s' = Nintco s /\ H s' = H s /\ H_new s' = H_new s /\
  q_1 s' = q_1 s /\ q_2 s' = q_2 s /\ f_q1 s' = f_q1 s /\ f_q2 s' = f_q2 s.
Proof. exact (displacements_frame s). Qed.

Lemma np_sub_same_length (a b : vec) :
  length a = length b -> np_sub a b = Ok (zipsub a b).
Proof. intros E. unfold np_sub. now rewrite E, Nat.eqb_refl. Qed.

Lemma assign_all_same_length (dst src : vec) :
  length src = length dst -> assign_all dst src = Ok src.
Proof. intros E. unfold assign_all. now rewrite E, Nat.eqb_refl. Qed.

Lemma displacements_fitting (s : store) :
  length (q_1 s) = length (dq s) -> length (q_2 s) = length (dq s) ->
  length (f_q1 s) = Nintco s -> length (f_q2 s) = Nintco s ->
  displacements s
  = (set_dg (zipsub (f_q1 s) (f_q2 s)) (set_dq (zipsub (q_2 s) (q_1 s)) s), Ok tt).
Proof.
  intros Hq1 Hq2 Hf1 Hf2.
  rewrite displacements_run. unfold displacements_cases.
  rewrite (np_sub_same_length (q_2 s) (q_1 s)) by congruence.
  rewrite assign_all_same_length by (rewrite length_zipsub; congruence).
  rewrite (np_sub_same_length (f_q1 s) (f_q2 s)) by congruence.
  rewrite assign_all_same_length
    by (rewrite length_zipsub by congruence; unfold zeros;
        rewrite length_replicate; congruence).
  reflexivity.
Qed.

(** X9. When [q_1] and [q_2] have as many entries as [dq], and [f_q1] and
    [f_q2] have [Nintco] entries, the displacement statements end without an
    exception with [dq[i] = q_2[i] - q_1[i]] and [dg[i] = f_q1[i] - f_q2[i]]
    for every [i], and have changed nothing else. *)
Theorem displacements_values (s : store) :
  length (q_1 s) = length (dq s) -> length (q_2 s) = length (dq s) ->
  length (f_q1 s) = Nintco s -> length (f_q2 s) = Nintco s ->
  exists s', displacements s = (s', Ok tt) /\
    s' = set_dg (dg s') (set_dq (dq s') s) /\
    length (dq s') = length (dq s) /\ length (dg s') = Nintco s /\
    (forall i x y, getitem (q_2 s) i = Ok x -> getitem (q_1 s) i = Ok y ->
                   getitem (dq s') i = Ok (x - y)%float) /\
    (forall i x y, getitem (f_q1 s) i = Ok x -> getitem (f_q2 s) i = Ok y ->
                   getitem (dg s') i = Ok (x - y)%float).
Proof.
  intros Hq1 Hq2 Hf1 Hf2.
  rewrite displacements_fitting by assumption.
  eexists. split; [reflexivity|]. simpl.
  split; [reflexivity|].
  split; [rewrite length_zipsub; congruence|].
  split; [rewrite length_zipsub; congruence|].
  split; intros i x y; apply getitem_zipsub.
Qed.

Lemma displacements_values_witness :
  (length (q_1 two_points) = length (dq two_points) /\
   length (q_2 two_points) = length (dq two_points) /\
   length (f_q1 two_points) = Nintco two_points /\
   length (f_q2 two_points) = Nintco two_points) /\
  exists s', displacements two_points = (s', Ok tt) /\
    length (dq s') = length (dq two_points) /\ length (dg s') = Nintco two_points.
Proof.
  assert (H1 : length (q_1 two_points) = length (dq two_points)) by reflexivity.
  assert (H2 : length (q_2 two_points) = length (dq two_points)) by reflexivity.
  assert (H3 : length (f_q1 two_points) = Nintco two_points) by reflexivity.
  assert (H4 : length (f_q2 two_points) = Nintco two_points) by reflexivity.
  split; [repeat split; assumption|].
  destruct (displacements_values two_points H1 H2 H3 H4) as (s' & E & _ & ? & ? & _).
  exists s'. repeat split; assumption.
Defined.

(** X10. The statements are not undone by an exception: when [q_2 - q_1] fits
    [dq] but the forces do not fit [dg], the [ValueError] leaves [dq]
    already overwritten by [q_2 - q_1], and [dg] rebound to [Nintco]
    zeros. *)
Theorem displacements_stop_midway (s : store) :
  length (q_1 s) = length (dq s) -> length (q_2 s) = length (dq s) ->
  assignable (Nintco s) (length (f_q1 s)) (length (f_q2 s)) = false ->
  displacements s
  = (set_dq (zipsub (q_2 s) (q_1 s)) (set_dg (zeros (Nintco s)) s),
     Raise ValueError).
Proof.
  intros Hq1 Hq2 Hbad.
  rewrite displacements_run. unfold displacements_cases.
  rewrite (np_sub_same_length (q_2 s) (q_1 s)) by congruence.
  rewrite assign_all_same_length by (rewrite length_zipsub; congruence).
  unfold assignable in Hbad.
  pose proof (np_sub_shape (f_q1 s) (f_q2 s)) as Hf.
  destruct (np_sub (f_q1 s) (f_q2 s)) as [d'|e]; [|destruct Hf as [_ ->]; reflexivity].
  rewrite Hf in Hbad.
  pose proof (assign_all_shape (zeros (Nintco s)) d') as Hb.
  assert (Hz : length (zeros (Nintco s)) = Nintco s) by apply length_replicate.
  rewrite Hz in Hb.
  destruct (assign_all (zeros (Nintco s)) d') as [w|e];
    [destruct Hb as [_ Hb]; congruence | destruct Hb as [_ ->]; reflexivity].
Qed.

Lemma displacements_stop_midway_witness :
  (length (q_1 forces_unfit) = length (dq forces_unfit) /\
   length (q_2 forces_unfit) = length (dq forces_unfit) /\
   assignable (Nintco forces_unfit) (length (f_q1 forces_unfit))
              (length (f_q2 forces_unfit)) = false) /\
  displacements forces_unfit
  = (set_dq (zipsub (q_2 forces_unfit) (q_1 forces_unfit))
            (set_dg (zeros (Nintco forces_unfit)) forces_unfit),
     Raise ValueError).
Proof.
  assert (H1 : length (q_1 forces_unfit) = length (dq forces_unfit)) by reflexivity.
  assert (H2 : length (q_2 forces_unfit) = length (dq forces_unfit)) by reflexivity.
  assert (H3 : assignable (Nintco forces_unfit) (length (f_q1 forces_unfit))
                          (length (f_q2 forces_unfit)) = false) by reflexivity.
  split; [repeat split; assumption|].
  exact (displacements_stop_midway forces_unfit H1 H2 H3).
Defined.

(** X11. Arrays with a single entry are broadcast and not refused: when
    [q_1], [q_2], [f_q1] and [f_q2] have one entry each, the statements end
    without an exception whatever the length of [dq] and the value of
    [Nintco], with every entry of [dq] equal to [q_2[0] - q_1[0]] and every
    entry of [dg] equal to [f_q1[0] - f_q2[0]]. *)
Theorem displacements_broadcast (s : store) (q1 q2 f1 f2 : float) :
  q_1 s = [q1] -> q_2 s = [q2] -> f_q1 s = [f1] -> f_q2 s = [f2] ->
  exists s', displacements s = (s', Ok tt) /\
    dq s' = replicate (length (dq s)) (q2 - q1)%float /\
    dg s' = replicate (Nintco s) (f1 - f2)%float.
Proof.
  intros E1 E2 E3 E4.
  rewrite displacements_run. unfold displacements_cases.
  rewrite E1, E2, E3, E4. cbn [np_sub length Nat.eqb zipsub combine map fst snd].
  assert (Ha : forall (dst : vec) (x : float),
             assign_all dst [x] = Ok (replicate (length dst) x)).
  { intros dst x. unfold assign_all. cbn [length].
    destruct (Nat.eqb 1 (length dst)) eqn:E; [|reflexivity].
    apply Nat.eqb_eq in E. now rewrite <- E. }
  rewrite !Ha. unfold zeros at 1. rewrite length_replicate.
  eexists. split; [reflexivity|]. split; reflexivity.
Qed.

Lemma displacements_broadcast_witness :
  (q_1 single_value = [1.75]%float /\ q_2 single_value = [2.25]%float /\
   f_q1 single_value = [0.25]%float /\ f_q2 single_value = [-0.25]%float) /\
  exists s', displacements single_value = (s', Ok tt) /\
    dq s' = replicate (length (dq single_value)) (2.25 - 1.75)%float /\
    dg s' = replicate (Nintco single_value) (0.25 - -0.25)%float.
Proof.
  split; [repeat split|].
  apply (displacements_broadcast single_value); reflexivity.
Defined.

Lemma update_bfgs_deterministic_inputs (s1 s2 : store) :
  Nintco s1 = Nintco s2 -> H s1 = H s2 -> dq s1 = dq s2 -> dg s1 = dg s2 ->
  snd (update_bfgs s1) = snd (update_bfgs s2) /\
  H_new (fst (update_bfgs s1)) = H_new (fst (update_bfgs s2)).
Proof.
  intros EN EH Eq Eg. unfold update_bfgs. rewrite !run_bind.
  unfold alloc_H_new. cbv [modify].
  destruct (same_run_bfgs_loops
              (set_H_new (zeros2 (Nintco s1) (Nintco s1)) s1)
              (set_H_new (zeros2 (Nintco s2) (Nintco s2)) s2)) as [Hr Hv].
  { unfold view. simpl. congruence. }
  split; [exact Hr|].
  unfold view in Hv. injection Hv. auto.
Qed.

(** ** The whole cell *)

Lemma cell_raises (s s1 : store) e :
  displacements s = (s1, Raise e) -> snd (cell s) = Raise e.
Proof.
  intros E. unfold cell. rewrite !(run_bind alloc_H_new).
  unfold alloc_H_new. cbv [modify]. rewrite run_bind.
  rewrite displacements_set_H_new, E. reflexivity.
Qed.

Lemma update_outcome_shapes (s t : store) :
  Nintco s = Nintco t -> H s = H t ->
  length (dq s) = length (dq t) -> length (dg s) = length (dg t) ->
  update_outcome s = update_outcome t.
Proof. unfold update_outcome. intros -> -> -> ->. reflexivity. Qed.

(** X12. For a rectangular [H], how the whole cell ends is decided by the
    shapes it starts from, as [cell_outcome] tells: [ValueError] when the
    displacements cannot be formed; else as the update ends on a [dq] of the
    length it had and a [dg] of [Nintco] entries. *)
Theorem cell_ends (s : store) :
  wf2 (H s) = true -> snd (cell s) = cell_outcome s.
Proof.
  intros HwfH. unfold cell_outcome. rewrite <- displacements_snd.
  pose proof (displacements_frame s) as Hsh. cbv zeta in Hsh.
  destruct (displacements s) as [s1 [[]|e]] eqn:E; simpl in *.
  - destruct Hsh as (Hldq & Hldg & HN & HH & _).
    rewrite (cell_update_bfgs s s1 E).
    rewrite update_bfgs_snd by congruence.
    apply update_outcome_shapes; simpl; try congruence.
    unfold zeros. rewrite length_replicate. exact Hldg.
  - eapply cell_raises; eauto.
Qed.

Lemma cell_ends_witness :
  wf2 (H forces_unfit) = true /\
  snd (cell forces_unfit) = cell_outcome forces_unfit /\
  cell_outcome forces_unfit = Raise ValueError.
Proof.
  assert (Hwf : wf2 (H forces_unfit) = true) by reflexivity.
  split; [exact Hwf|]. split; [exact (cell_ends forces_unfit Hwf)|reflexivity].
Defined.

(** X13. On an [Nintco] by [Nintco] array [H], a [dq] of [Nintco] entries and
    values and forces of [Nintco] entries at both points, the cell ends
    without an exception; it leaves [H] as it was,
    [dq[i] = q_2[i] - q_1[i]], [dg[i] = f_q1[i] - f_q2[i]], and
    [H_new[i,j] = H[i,j] + dg[i]*dg[j]/gq - Hdq[i]*Hdq[j]/dqHdq] for all
    [i], [j], where [gq], [Hdq] and [dqHdq] are formed from these [dq] and
    [dg]. *)
Theorem cell_formula (s : store) :
  wf2 (H s) = true -> nrows (H s) = Nintco s -> ncols (H s) = Nintco s ->
  length (dq s) = Nintco s ->
  length (q_1 s) = Nintco s -> length (q_2 s) = Nintco s ->
  length (f_q1 s) = Nintco s -> length (f_q2 s) = Nintco s ->
  exists s', cell s = (s', Ok tt) /\ H s' = H s /\
    (forall i, i < Nintco s ->
       exists q1 q2 f1 f2,
         getitem (q_1 s) i = Ok q1 /\ getitem (q_2 s) i = Ok q2 /\
         getitem (f_q1 s) i = Ok f1 /\ getitem (f_q2 s) i = Ok f2 /\
         getitem (dq s') i = Ok (q2 - q1)%float /\
         getitem (dg s') i = Ok (f1 - f2)%float) /\
    (forall i j, i < Nintco s -> j < Nintco s ->
       exists h a b x y,
         getitem2 (H s) i j = Ok h /\
         getitem (dg s') i = Ok a /\ getitem (dg s') j = Ok b /\
         getitem (Hdq s') i = Ok x /\ getitem (Hdq s') j = Ok y /\
         getitem2 (H_new s') i j = Ok (h + a * b / gq s' - x * y / dqHdq s')%float).
Proof.
  intros HwfH HrH HcH Hldq Hq1 Hq2 Hf1 Hf2.
  pose proof (displacements_fitting s) as E.
  set (s1 := set_dg (zipsub (f_q1 s) (f_q2 s)) (set_dq (zipsub (q_2 s) (q_1 s)) s)) in E.
  specialize (E ltac:(congruence) ltac:(congruence) Hf1 Hf2).
  assert (Hl1 : length (dq s1) = length (dq s)) by (simpl; rewrite length_zipsub; congruence).
  assert (Hl2 : length (dg s1) = Nintco s) by (simpl; rewrite length_zipsub; congruence).
  assert (Hvq : forall i x y, getitem (q_2 s) i = Ok x -> getitem (q_1 s) i = Ok y ->
                  getitem (dq s1) i = Ok (x - y)%float)
    by (intros i x y; apply getitem_zipsub).
  assert (Hvf : forall i x y, getitem (f_q1 s) i = Ok x -> getitem (f_q2 s) i = Ok y ->
                  getitem (dg s1) i = Ok (x - y)%float)
    by (intros i x y; apply getitem_zipsub).
  clearbody s1.
  pose proof (displacements_frame s) as Hsh. cbv zeta in Hsh.
  rewrite E in Hsh. simpl in Hsh. destruct Hsh as (_ & _ & HN & HH & _).
  assert (Hs1 : well_shaped s1 = true).
  { unfold well_shaped. rewrite HH, HN, HwfH, HrH, HcH, Hl1, Hl2, Hldq.
    now rewrite !Nat.eqb_refl. }
  rewrite (cell_update_bfgs s s1 E).
  destruct (update_bfgs_correct s1 Hs1) as (s' & Hrun & Hin & _ & _ & _ & _ & He).
  pose proof (inputs_inv _ _ Hin) as (_ & EH & Edq & Edg).
  assert (Eg : gq s' = gq s1) by (unfold gq; congruence).
  assert (Ew : Hdq s' = Hdq s1) by (unfold Hdq; now rewrite EH, Edq).
  assert (Ed : dqHdq s' = dqHdq s1) by (unfold dqHdq; now rewrite Ew, Edq).
  exists s'. split; [exact Hrun|]. split; [congruence|]. split.
  - intros i Hi.
    destruct (getitem_lt (q_1 s) i) as [q1 Hg1]; [lia|].
    destruct (getitem_lt (q_2 s) i) as [q2 Hg2]; [lia|].
    destruct (getitem_lt (f_q1 s) i) as [f1 Hg3]; [lia|].
    destruct (getitem_lt (f_q2 s) i) as [f2 Hg4]; [lia|].
    exists q1, q2, f1, f2. repeat (split; [assumption|]).
    rewrite Edq, Edg. split; [now apply Hvq | now apply Hvf].
  - intros i j Hi Hj. rewrite <- HN in Hi, Hj.
    destruct (well_shaped_reads s1 i j Hs1 Hi Hj)
      as (h & a & b & x & y & ? & ? & ? & ? & ? & E').
    exists h, a, b, x, y. rewrite Eg, Ew, Ed, Edg, <- HH.
    repeat (split; [assumption|]).
    rewrite (He i j Hi Hj). now rewrite E'.
Qed.

Lemma cell_formula_witness :
  (wf2 (H two_points) = true /\ nrows (H two_points) = Nintco two_points /\
   ncols (H two_points) = Nintco two_points /\
   length (dq two_points) = Nintco two_points /\
   length (q_1 two_points) = Nintco two_points /\
   length (q_2 two_points) = Nintco two_points /\
   length (f_q1 two_points) = Nintco two_points /\
   length (f_q2 two_points) = Nintco two_points) /\
  exists s', cell two_points = (s', Ok tt) /\ H s' = H two_points.
Proof.
  split; [repeat split|].
  destruct (cell_formula two_points) as (s' & E & EH & _); try reflexivity.
  exists s'. split; assumption.
Defined.

(** X14. Running the cell again changes nothing: when the cell has ended
    without an exception, a second run from the store it left ends without
    an exception too and leaves the same [dq], [dg] and [H_new]. *)
Theorem cell_again (s s1 : store) :
  cell s = (s1, Ok tt) ->
  exists s2, cell s1 = (s2, Ok tt) /\
    dq s2 = dq s1 /\ dg s2 = dg s1 /\ H_new s2 = H_new s1 /\ H s2 = H s1.
Proof.
  intros Hrun.
  (* the first run *)
  destruct (displacements s) as [t [[]|e]] eqn:Et.
  2:{ apply cell_raises in Et. rewrite Hrun in Et. discriminate Et. }
  rewrite (cell_update_bfgs s t Et) in Hrun.
  pose proof (keeps_update_bfgs t) as Hk. rewrite Hrun in Hk. simpl in Hk.
  assert (Hfields : Nintco s1 = Nintco t /\ H s1 = H t /\ dq s1 = dq t /\
                    dg s1 = dg t /\ q_1 s1 = q_1 t /\ q_2 s1 = q_2 t /\
                    f_q1 s1 = f_q1 t /\ f_q2 s1 = f_q2 t).
  { unfold inputs in Hk. injection Hk. auto 10. }
  destruct Hfields as (HN & HH & Edq & Edg & Hq1 & Hq2 & Hf1 & Hf2).
  pose proof (displacements_frame s) as Hsh. cbv zeta in Hsh.
  rewrite Et in Hsh. simpl in Hsh.
  destruct Hsh as (_ & _ & HNt & _ & _ & Hq1t & Hq2t & Hf1t & Hf2t).
  (* the displacements of the second run *)
  assert (Et' : exists t', displacements s1 = (t', Ok tt) /\
                  Nintco t' = Nintco t /\ H t' = H t /\ dq t' = dq t /\ dg t' = dg t).
  { rewrite displacements_run in Et. rewrite displacements_run.
    unfold displacements_cases in *.
    rewrite HN, Hq1, Hq2, Hf1, Hf2, Edq, HNt, Hq1t, Hq2t, Hf1t, Hf2t.
    destruct (np_sub (q_2 s) (q_1 s)) as [d|e]; [|discriminate Et].
    destruct (assign_all (dq s) d) as [v|e] eqn:Ev; [|discriminate Et].
    destruct (np_sub (f_q1 s) (f_q2 s)) as [d'|e]; [|discriminate Et].
    destruct (assign_all (zeros (Nintco s)) d') as [w|e] eqn:Ew; [|discriminate Et].
    injection Et as <-. simpl.
    rewrite (assign_all_again _ _ _ Ev).
    eexists. split; [reflexivity|]. simpl in *. auto. }
  destruct Et' as (t' & Et' & HN' & HH' & Edq' & Edg').
  rewrite (cell_update_bfgs s1 t' Et').
  (* the update of the second run reads what the first read *)
  destruct (update_bfgs_deterministic_inputs t' t) as [Hr Hn]; try assumption.
  rewrite Hrun in Hr, Hn. simpl in Hr, Hn.
  pose proof (keeps_update_bfgs t') as Hk'.
  destruct (update_bfgs t') as [s2 r2]. simpl in *. subst r2.
  exists s2. split; [reflexivity|].
  apply inputs_inv in Hk' as (_ & EH2 & Edq2 & Edg2).
  repeat split; congruence.
Qed.

Lemma cell_again_witness :
  cell two_points = (fst (cell two_points), Ok tt) /\
  exists s2, cell (fst (cell two_points)) = (s2, Ok tt) /\
    dq s2 = dq (fst (cell two_points)) /\ dg s2 = dg (fst (cell two_points)) /\
    H_new s2 = H_new (fst (cell two_points)) /\ H s2 = H (fst (cell two_points)).
Proof.
  assert (Hrun : cell two_points = (fst (cell two_points), Ok tt))
    by (vm_compute; reflexivity).
  split; [exact Hrun|].
  exact (cell_again two_points (fst (cell two_points)) Hrun).
Defined.

(** ** The guess Hessian *)

Section Guess.

Context {intco : Type} (diagonalHessianGuess : intco -> float).

Lemma guess_loop (n : nat) (l : list intco) : forall (k : nat) (s : store),
  ncols (H s) = n -> nrows (H s) = n -> wf2 (H s) = true ->
  k + length l <= n ->
  exists s', for_enumerate_from k l (guess_entry diagonalHessianGuess) s = (s', Ok tt) /\
    s' = set_H (H s') s /\
    ncols (H s') = n /\ nrows (H s') = n /\ wf2 (H s') = true /\
    (forall i c, l !! i = Some c ->
       getitem2 (H s') (k + i) (k + i) = Ok (diagonalHessianGuess c)) /\
    (forall i j, ~ (i = j /\ k <= i < k + length l) ->
       getitem2 (H s') i j = getitem2 (H s) i j).
Proof.
  induction l as [|x l IH]; intros k s Hc Hr Hwf Hk; simpl in *.
  - exists s. split; [reflexivity|]. split; [now destruct s|].
    repeat (split; [assumption|]). split; [intros i c E; discriminate E|].
    reflexivity.
  - destruct (setitem2_lt (H s) k k (diagonalHessianGuess x)) as [M' HM']; [lia|lia|].
    destruct (setitem2_shape _ _ _ _ _ HM') as (Hc' & Hr' & Hwf').
    rewrite run_bind. unfold guess_entry at 1. rewrite run_bind.
    unfold eval at 1. rewrite HM'. cbv [modify].
    destruct (IH (S k) (set_H M' s)) as (s' & E & Hs' & Hc2 & Hr2 & Hwf2 & Hd & Ho);
      simpl; try congruence; auto; try lia.
    exists s'. split; [exact E|].
    split; [rewrite Hs' at 1; reflexivity|].
    repeat (split; [assumption|]). split.
    + intros [|i] c Hi; simpl in Hi.
      * injection Hi as ->. rewrite Nat.add_0_r.
        rewrite Ho by lia. simpl.
        now apply (getitem2_setitem2_eq (H s)).
      * replace (k + S i) with (S k + i) by lia. now apply Hd.
    + intros i j Hij. rewrite Ho by lia. simpl.
      apply (getitem2_setitem2_ne _ _ _ _ _ _ _ HM').
      intros Heq. injection Heq as -> ->. lia.
Qed.

Lemma getitem2_zeros2 n i j : i < n -> j < n -> getitem2 (zeros2 n n) i j = Ok 0%float.
Proof.
  intros Hi Hj. unfold getitem2, zeros2, zeros. simpl.
  apply Nat.ltb_lt in Hj as Hj'. rewrite Hj'.
  rewrite lookup_replicate_2 by assumption.
  apply getitem_Ok. now apply lookup_replicate_2.
Qed.

Lemma guess_H_run (intcos : list intco) (s : store) :
  exists s', guess_H diagonalHessianGuess intcos s = (s', Ok tt) /\
    s' = set_H (H s') (set_Nintco (length intcos) s) /\
    ncols (H s') = length intcos /\ nrows (H s') = length intcos /\
    wf2 (H s') = true /\
    (forall i c, intcos !! i = Some c ->
       getitem2 (H s') i i = Ok (diagonalHessianGuess c)) /\
    (forall i j, i < length intcos -> j < length intcos -> i <> j ->
       getitem2 (H s') i j = Ok 0%float).
Proof.
  unfold guess_H. rewrite run_bind. cbv [modify]. rewrite run_bind.
  set (n := length intcos).
  set (s0 := set_H (zeros2 (Nintco (set_Nintco n s)) (Nintco (set_Nintco n s)))
                   (set_Nintco n s)).
  destruct (zeros2_shape n n) as (Hc & Hr & Hwf).
  destruct (guess_loop n intcos 0 s0) as (s' & E & Hs' & Hc' & Hr' & Hwf' & Hd & Ho);
    try assumption; [simpl; lia|].
  exists s'. split; [exact E|].
  split; [rewrite Hs' at 1; reflexivity|].
  do 3 (split; [assumption|]). split.
  - intros i c Hi. exact (Hd i c Hi).
  - intros i j Hi Hj Hne. rewrite Ho by lia. simpl.
    now apply getitem2_zeros2.
Qed.

(** X15. The guess Hessian of the second cell: for any list of coordinates
    and any guesses, the statements end without an exception and leave
    [Nintco] the number of coordinates and [H] a rectangular [Nintco] by
    [Nintco] array with the guess of the [i]-th coordinate at [(i, i)] and
    [0.0] elsewhere; [dq], [dg] and [H_new] are untouched. *)
Theorem guess_H_diagonal (intcos : list intco) (s : store) :
  exists s', guess_H diagonalHessianGuess intcos s = (s', Ok tt) /\
    s' = set_H (H s') (set_Nintco (length intcos) s) /\
    ncols (H s') = length intcos /\ nrows (H s') = length intcos /\
    wf2 (H s') = true /\
    (forall i c, intcos !! i = Some c ->
       getitem2 (H s') i i = Ok (diagonalHessianGuess c)) /\
    (forall i j, i < length intcos -> j < length intcos -> i <> j ->
       getitem2 (H s') i j = Ok 0%float).
Proof. exact (guess_H_run intcos s). Qed.

End Guess.

(** ** The guess Hessian through the update *)

Lemma updated_entry_sym s i j :
  well_shaped s = true -> i < Nintco s -> j < Nintco s ->
  getitem2 (H s) i j = getitem2 (H s) j i ->
  less_T2 s i j (with_T1 s i j) = less_T2 s j i (with_T1 s j i).
Proof.
  intros Hs Hi Hj Hsym.
  destruct (well_shaped_reads s i j Hs Hi Hj) as (h & a & b & x & y & Hh & _).
  pose proof Hsym as Hh'. rewrite Hh in Hh'. symmetry in Hh'.
  unfold less_T2, with_T1.
  rewrite (at2_getitem2 _ _ _ _ Hh), (at2_getitem2 _ _ _ _ Hh').
  now rewrite (float_mul_comm (at1 (dg s) j)), (float_mul_comm (at1 (Hdq s) j)).
Qed.

(** X16. From the second cell to the last: when [H] and [Nintco] are still
    those the guess statements left (for any coordinates and guesses), and
    [dq] and the values and forces at the two points have [Nintco] entries,
    the last cell ends without an exception and the [H_new] it leaves is
    symmetric: [H_new[i,j]] and [H_new[j,i]] are the same binary64 number. *)
Theorem guess_then_cell_symmetric {intco : Type} (diagonalHessianGuess : intco -> float)
    (intcos : list intco) (s0 s : store) :
  H s = H (fst (guess_H diagonalHessianGuess intcos s0)) ->
  Nintco s = Nintco (fst (guess_H diagonalHessianGuess intcos s0)) ->
  length (dq s) = Nintco s ->
  length (q_1 s) = Nintco s -> length (q_2 s) = Nintco s ->
  length (f_q1 s) = Nintco s -> length (f_q2 s) = Nintco s ->
  exists s', cell s = (s', Ok tt) /\ Nintco s = length intcos /\
    forall i j, i < Nintco s -> j < Nintco s ->
      exists x, getitem2 (H_new s') i j = Ok x /\ getitem2 (H_new s') j i = Ok x.
Proof.
  intros EH EN Hldq Hq1 Hq2 Hf1 Hf2.
  destruct (guess_H_run diagonalHessianGuess intcos s0)
    as (g & Eg & Hg & Hc & Hr & Hwf & Hd & Ho).
  rewrite Eg in EH, EN. simpl in EH, EN.
  assert (EN' : Nintco s = length intcos) by (rewrite EN, Hg; reflexivity).
  assert (Hsym : forall i j, i < Nintco s -> j < Nintco s ->
                   getitem2 (H s) i j = getitem2 (H s) j i).
  { intros i j Hi Hj. destruct (decide (i = j)) as [->|Hne]; [reflexivity|].
    rewrite EH, !Ho by (try lia; congruence). reflexivity. }
  pose proof (displacements_fitting s) as E.
  set (s1 := set_dg (zipsub (f_q1 s) (f_q2 s)) (set_dq (zipsub (q_2 s) (q_1 s)) s)) in E.
  specialize (E ltac:(congruence) ltac:(congruence) Hf1 Hf2).
  assert (Hl1 : length (dq s1) = length (dq s)) by (simpl; rewrite length_zipsub; congruence).
  assert (Hl2 : length (dg s1) = Nintco s) by (simpl; rewrite length_zipsub; congruence).
  clearbody s1.
  pose proof (displacements_frame s) as Hsh. cbv zeta in Hsh.
  rewrite E in Hsh. simpl in Hsh. destruct Hsh as (_ & _ & HN & HH & _).
  assert (Hs1 : well_shaped s1 = true).
  { unfold well_shaped. rewrite !andb_true_iff, !Nat.eqb_eq.
    rewrite HH, HN, EH. repeat split; congruence. }
  rewrite (cell_update_bfgs s s1 E).
  destruct (update_bfgs_correct s1 Hs1) as (s' & Hrun & _ & _ & _ & _ & _ & He).
  exists s'. split; [exact Hrun|]. split; [exact EN'|].
  intros i j Hi Hj. rewrite <- HN in Hi, Hj.
  exists (less_T2 s1 i j (with_T1 s1 i j)). split; [now apply He|].
  rewrite (He j i Hj Hi). f_equal. symmetry.
  apply updated_entry_sym; try assumption.
  rewrite HH. apply Hsym; congruence.
Qed.

Lemma guess_then_cell_symmetric_witness :
  (H two_points
   = H (fst (guess_H (fun c : float => c) [0.75; 0.75; 0.125]%float no_coordinates)) /\
   Nintco two_points
   = Nintco (fst (guess_H (fun c : float => c) [0.75; 0.75; 0.125]%float no_coordinates)) /\
   length (dq two_points) = Nintco two_points /\
   length (q_1 two_points) = Nintco two_points /\
   length (q_2 two_points) = Nintco two_points /\
   length (f_q1 two_points) = Nintco two_points /\
   length (f_q2 two_points) = Nintco two_points) /\
  exists s', cell two_points = (s', Ok tt) /\ Nintco two_points = 3 /\
    forall i j, i < Nintco two_points -> j < Nintco two_points ->
      exists x, getitem2 (H_new s') i j = Ok x /\ getitem2 (H_new s') j i = Ok x.
Proof.
  split; [repeat split|].
  apply (guess_then_cell_symmetric (fun c : float => c)
           [0.75; 0.75; 0.125]%float no_coordinates two_points); reflexivity.
Defined.

(** ** The flat gradient *)

Lemma lookup_concat_rows (c : nat) (rows : list vec) : forall a r j,
  Forall (fun r => length r = c) rows ->
  rows !! a = Some r -> j < c ->
  concat rows !! (a * c + j) = r !! j.
Proof.
  induction rows as [|r0 rows IH]; intros a r j Hall Ha Hj; [discriminate Ha|].
  apply Forall_cons in Hall as [Hr0 Hall]. simpl.
  destruct a as [|a]; simpl in *.
  - injection Ha as ->. apply lookup_app_l. lia.
  - rewrite lookup_app_r by lia.
    replace (c + a * c + j - length r0) with (a * c + j) by lia.
    now apply IH.
Qed.

Lemma length_concat_rows (c : nat) (rows : list vec) :
  Forall (fun r => length r = c) rows -> length (concat rows) = length rows * c.
Proof.
  induction 1 as [|r rows Hr _ IH]; simpl; [reflexivity|].
  rewrite length_app, IH, Hr. reflexivity.
Qed.

(** X17. The Cartesian gradient is flattened atom after atom: for a
    rectangular [Natom] by 3 array, the reshape ends without an exception,
    the result has [3*Natom] entries, and its entry [3*a + c] is the entry
    [(a, c)] of the array. *)
Theorem flat_gradient_entries (Natom : nat) (gradient : ndarray2) :
  wf2 gradient = true -> nrows gradient = Natom -> ncols gradient = 3 ->
  exists g, flat_gradient Natom gradient = Ok g /\ length g = 3 * Natom /\
    forall a c, a < Natom -> c < 3 ->
      getitem g (3 * a + c) = getitem2 gradient a c.
Proof.
  intros Hwf Hr Hc.
  assert (Hall : Forall (fun r => length r = 3) (rowsof gradient)).
  { apply Forall_forall. intros r Hin.
    apply list_elem_of_lookup in Hin as [k Hk].
    rewrite <- Hc. eapply wf2_row; eauto. }
  unfold flat_gradient, reshape1. rewrite Hr, Hc.
  replace (Nat.eqb (Natom * 3) (3 * Natom)) with true
    by (symmetry; apply Nat.eqb_eq; lia).
  eexists. split; [reflexivity|]. split.
  - rewrite (length_concat_rows 3) by assumption. unfold nrows in Hr. lia.
  - intros a c Ha Hc'. unfold getitem2. rewrite Hc.
    apply Nat.ltb_lt in Hc' as Hc''. rewrite Hc''.
    destruct (lookup_lt_is_Some_2 (rowsof gradient) a) as [r Hrow];
      [unfold nrows in Hr; lia|].
    rewrite Hrow. unfold getitem.
    replace (3 * a + c) with (a * 3 + c) by lia.
    now rewrite (lookup_concat_rows 3 _ a r c Hall Hrow Hc').
Qed.

Lemma flat_gradient_entries_witness :
  (wf2 (Arr2 3 [[1; 2; 3]; [4; 5; 6]]%float) = true /\
   nrows (Arr2 3 [[1; 2; 3]; [4; 5; 6]]%float) = 2 /\
   ncols (Arr2 3 [[1; 2; 3]; [4; 5; 6]]%float) = 3) /\
  exists g, flat_gradient 2 (Arr2 3 [[1; 2; 3]; [4; 5; 6]]%float) = Ok g /\
    length g = 3 * 2.
Proof.
  split; [repeat split|].
  destruct (flat_gradient_entries 2 (Arr2 3 [[1; 2; 3]; [4; 5; 6]]%float))
    as (g & E & Hl & _); try reflexivity.
  exists g. split; assumption.
Defined.
